(** * The WGAN generator and discriminator of [model/WGAN.py]

    A shallow embedding of the two network definitions and of the part
    of [torch.nn] they are built from.

    - A tensor is a shape (a list of naturals, outermost dimension
      first) together with its entries, read by multi-index.  Entries
      are real numbers: the embedding idealises the floating-point
      entries of the tensor library.
    - A [torch.nn] module is a value of [Module]: its hyper-parameters,
      its learned parameters and, for batch normalisation, its buffers
      (running mean, running variance, batch counter).
    - [forward] threads the module through the computation and returns
      the updated module next to the result, so that the in-place buffer
      updates of batch normalisation are explicit.  A result of [None]
      stands for the exception the tensor library raises on a shape
      mismatch or on a layer whose weight has no entries. *)

From Stdlib Require Import List Bool Arith ZArith Lia ZifyNat Reals Lra.
Import ListNotations.

Set Implicit Arguments.
Set Warnings "-register-all".

(** ** Tensors *)

Module Tensor.

Definition shape := list nat.
Definition index := list nat.

Record tensor : Type := mk { dims : shape; data : index -> R }.

(** Number of entries, [torch.numel]. *)
Definition numel (s : shape) : nat := fold_right Nat.mul 1%nat s.

(** Row-major offset of a multi-index, and its inverse. *)
Fixpoint ravel (s : shape) (ix : index) : nat :=
  match s, ix with
  | d :: s', i :: ix' => (i * numel s' + ravel s' ix')%nat
  | _, _ => 0%nat
  end.

Fixpoint unravel (s : shape) (off : nat) : index :=
  match s with
  | [] => []
  | d :: s' => (off / numel s')%nat :: unravel s' (off mod numel s')
  end.

(** [sum_upto n f] is [f 0 + ... + f (n-1)]. *)
Fixpoint sum_upto (n : nat) (f : nat -> R) : R :=
  match n with
  | O => 0%R
  | S k => (sum_upto k f + f k)%R
  end.

(** Entry-wise application of a scalar function. *)
Definition pointwise (f : R -> R) (t : tensor) : tensor :=
  mk (dims t) (fun ix => f (data t ix)).

(** [Tensor.mean(0)]: the mean over the outermost dimension, which is
    dropped from the shape.  On a 0-dimensional tensor the tensor is
    returned as it is. *)
Definition mean0 (t : tensor) : tensor :=
  match dims t with
  | [] => t
  | n :: s =>
      mk s (fun ix => (sum_upto n (fun k => data t (k :: ix)) / INR n)%R)
  end.

(** [Tensor.view(shape)]: the same entries in row-major order under a
    new shape; an exception when the numbers of entries differ. *)
Definition view (s : shape) (t : tensor) : option tensor :=
  if (numel (dims t) =? numel s)%nat
  then Some (mk s (fun ix => data t (unravel (dims t) (ravel s ix))))
  else None.

End Tensor.

Import Tensor.

(** ** The layers of [torch.nn] used by the source *)

Module nn.

(** A convolution weight, read as [w o i a b]; the meaning of the
    first two positions depends on the layer. *)
Definition weight4 := nat -> nat -> nat -> nat -> R.

(** The buffers of a batch-normalisation layer. *)
Record bn_buffers : Type := mk_buffers {
  running_mean : nat -> R;
  running_var : nat -> R;
  num_batches_tracked : nat
}.

(** Modules.  [DeconvBlock] is the class of the source, with its three
    attributes [conv], [bn] and [relu]; the others are the library's. *)
Inductive Module : Type :=
| Conv2d (in_channels out_channels kernel_size stride padding : nat)
         (weight : weight4)
| ConvTranspose2d (in_channels out_channels kernel_size stride padding : nat)
                  (weight : weight4)
| BatchNorm2d (num_features : nat) (weight bias : nat -> R)
              (buffers : bn_buffers)
| ReLU
| LeakyReLU (negative_slope : R)
| Tanh
| DeconvBlockM (conv bn relu : Module)
| Sequential (layers : list Module).

(** The defaults of [nn.BatchNorm2d]. *)
Definition eps : R := (/ 100000)%R.
Definition momentum : R := (/ 10)%R.

(** *** Output sizes *)

(** [nn.Conv2d]: [floor((h + 2p - k) / s) + 1], an exception when the
    kernel is larger than the padded input or the stride is not
    positive. *)
Definition conv_out (h k s p : nat) : option nat :=
  if (1 <=? s)%nat && (k <=? h + 2 * p)%nat
  then Some ((h + 2 * p - k) / s + 1)%nat
  else None.

(** [nn.ConvTranspose2d] (dilation 1, no output padding):
    [(h - 1) s - 2p + k], an exception when that is negative, when the
    input is empty or when the stride is not positive.  A size of 0 is
    no exception: the result is then an empty map. *)
Definition deconv_out (h k s p : nat) : option nat :=
  if (1 <=? s)%nat && (1 <=? h)%nat && (2 * p <=? (h - 1) * s + k)%nat
  then Some ((h - 1) * s + k - 2 * p)%nat
  else None.

(** A convolution weight without entries: no input channel, no output
    channel or a kernel of size 0.  The library refuses to convolve
    with such a weight. *)
Definition weightless (cin cout k : nat) : bool :=
  (cin =? 0)%nat || (cout =? 0)%nat || (k =? 0)%nat.

(** *** Entries *)

(** Entry [(y, x)] of channel [c] of sample [n] of the input padded
    with [p] rows and columns of zeros on every side. *)
Definition padded (t : tensor) (h w p n c y x : nat) : R :=
  if (p <=? y)%nat && (y <? h + p)%nat && (p <=? x)%nat && (x <? w + p)%nat
  then data t [n; c; y - p; x - p]%nat
  else 0%R.

Definition conv2d_data (cin k s p : nat) (wt : weight4) (h w : nat)
           (t : tensor) (ix : index) : R :=
  match ix with
  | [n; o; i; j] =>
      sum_upto cin (fun c =>
      sum_upto k (fun a =>
      sum_upto k (fun b =>
        (padded t h w p n c (i * s + a) (j * s + b) * wt o c a b)%R)))
  | _ => 0%R
  end.

Definition conv_transpose2d_data (cin k s p : nat) (wt : weight4)
           (h w : nat) (t : tensor) (ix : index) : R :=
  match ix with
  | [n; o; y; x] =>
      sum_upto cin (fun c =>
      sum_upto h (fun i =>
      sum_upto k (fun a =>
      sum_upto w (fun j =>
      sum_upto k (fun b =>
        if ((i * s + a =? y + p) && (j * s + b =? x + p))%nat
        then (data t [n; c; i; j] * wt c o a b)%R
        else 0%R)))))
  | _ => 0%R
  end.

(** Per-channel statistics of a batch [n x _ x h x w]. *)
Definition batch_mean (t : tensor) (n h w c : nat) : R :=
  (sum_upto n (fun b => sum_upto h (fun i => sum_upto w (fun j =>
     data t [b; c; i; j]))) / INR (n * h * w))%R.

Definition batch_var (t : tensor) (n h w c : nat) : R :=
  (sum_upto n (fun b => sum_upto h (fun i => sum_upto w (fun j =>
     Rsqr (data t [b; c; i; j] - batch_mean t n h w c))))
   / INR (n * h * w))%R.

Definition normalize (mean var gamma beta : nat -> R) (t : tensor)
           (ix : index) : R :=
  match ix with
  | [_; c; _; _] =>
      ((data t ix - mean c) / sqrt (var c + eps) * gamma c + beta c)%R
  | _ => 0%R
  end.

(** In training mode the batch counter is advanced first, before the
    batch is looked at ... *)
Definition count_batch (b : bn_buffers) : bn_buffers :=
  mk_buffers (running_mean b) (running_var b) (S (num_batches_tracked b)).

(** ... and the running statistics are then moved towards those of the
    batch (exponential moving averages, with the unbiased variance). *)
Definition update_stats (b : bn_buffers) (t : tensor) (n h w : nat)
  : bn_buffers :=
  let m := (n * h * w)%nat in
  mk_buffers
    (fun c => ((1 - momentum) * running_mean b c
               + momentum * batch_mean t n h w c)%R)
    (fun c => ((1 - momentum) * running_var b c
               + momentum * (batch_var t n h w c * INR m / INR (m - 1)))%R)
    (num_batches_tracked b).

Definition relu (x : R) : R := Rmax 0 x.

Definition leaky_relu (slope x : R) : R :=
  (Rmax 0 x + slope * Rmin 0 x)%R.

(** The truth value of a module object in a Python condition.
    [nn.Module] defines neither [__bool__] nor [__len__] (only the
    containers define [__len__]), so a [BatchNorm2d] object is true. *)
Definition truthy (m : Module) : bool :=
  match m with
  | Sequential l => negb (Nat.eqb (length l) 0)
  | _ => true
  end.

(** *** Forward passes of the primitive layers *)

(** Both convolutions take a batch [n x c x h x w]: an exception when
    the weight has no entries, when [c] is not the layer's number of
    input channels, or when the sizes do not fit.  Only batches are
    modelled: an input of another rank is refused here, where the
    library would take a single sample [c x h x w] through a
    convolution and refuse it at the next [BatchNorm2d], which every
    pipeline of the two networks contains. *)
Definition conv2d_forward (cin cout k s p : nat) (wt : weight4)
           (x : tensor) : option tensor :=
  match dims x with
  | [n; c; h; w] =>
      if weightless cin cout k then None
      else if (c =? cin)%nat then
        match conv_out h k s p, conv_out w k s p with
        | Some h', Some w' =>
            Some (Tensor.mk [n; cout; h'; w']
                            (conv2d_data cin k s p wt h w x))
        | _, _ => None
        end
      else None
  | _ => None
  end.

Definition conv_transpose2d_forward (cin cout k s p : nat) (wt : weight4)
           (x : tensor) : option tensor :=
  match dims x with
  | [n; c; h; w] =>
      if weightless cin cout k then None
      else if (c =? cin)%nat then
        match deconv_out h k s p, deconv_out w k s p with
        | Some h', Some w' =>
            Some (Tensor.mk [n; cout; h'; w']
                            (conv_transpose2d_data cin k s p wt h w x))
        | _, _ => None
        end
      else None
  | _ => None
  end.

(** [nn.BatchNorm2d.forward].  In training mode the batch statistics
    normalise the input and the buffers are updated; a batch with a
    single value per channel is refused.  In evaluation mode the
    running statistics normalise the input and nothing is written. *)
Definition batch_norm2d_forward (training : bool) (nf : nat)
           (gamma beta : nat -> R) (b : bn_buffers) (x : tensor)
  : option tensor * bn_buffers :=
  match dims x with
  | [n; c; h; w] =>
      if training then
        let b1 := count_batch b in
        if (n * h * w =? 1)%nat then (None, b1)
        else if (c =? nf)%nat then
          (Some (Tensor.mk (dims x)
                   (normalize (batch_mean x n h w) (batch_var x n h w)
                              gamma beta x)),
           update_stats b1 x n h w)
        else (None, b1)
      else
        if (c =? nf)%nat then
          (Some (Tensor.mk (dims x)
                   (normalize (running_mean b) (running_var b)
                              gamma beta x)),
           b)
        else (None, b)
  | _ => (None, b)
  end.

(** *** Forward pass of a module *)

(** [nn.Sequential.forward]: the layers one after the other; the
    first exception ends the pass. *)
Definition run_layers (f : Module -> tensor -> option tensor * Module)
  : list Module -> tensor -> option tensor * list Module :=
  fix go (ms : list Module) (x : tensor) : option tensor * list Module :=
    match ms with
    | [] => (Some x, [])
    | m :: ms' =>
        let (r, m') := f m x in
        match r with
        | None => (None, m' :: ms')
        | Some y => let (r', ms'') := go ms' y in (r', m' :: ms'')
        end
    end.

(** [forward training m x]: the value of [m(x)] and the module after
    the call.  The [DeconvBlockM] case is [DeconvBlock.forward] of the
    source:
<<
      x = self.relu(self.conv(x))
      return self.bn(x) if self.bn else x
>> *)
Fixpoint forward (training : bool) (m : Module) (x : tensor) {struct m}
  : option tensor * Module :=
  match m with
  | Conv2d cin cout k s p wt => (conv2d_forward cin cout k s p wt x, m)
  | ConvTranspose2d cin cout k s p wt =>
      (conv_transpose2d_forward cin cout k s p wt x, m)
  | BatchNorm2d nf gamma beta b =>
      let (r, b') := batch_norm2d_forward training nf gamma beta b x in
      (r, BatchNorm2d nf gamma beta b')
  | ReLU => (Some (pointwise relu x), m)
  | LeakyReLU slope => (Some (pointwise (leaky_relu slope) x), m)
  | Tanh => (Some (pointwise tanh x), m)
  | DeconvBlockM conv bn act =>
      let (r1, conv') := forward training conv x in
      match r1 with
      | None => (None, DeconvBlockM conv' bn act)
      | Some x1 =>
          let (r2, act') := forward training act x1 in
          match r2 with
          | None => (None, DeconvBlockM conv' bn act')
          | Some x2 =>
              if truthy bn then
                let (r3, bn') := forward training bn x2 in
                (r3, DeconvBlockM conv' bn' act')
              else (Some x2, DeconvBlockM conv' bn act')
          end
      end
  | Sequential ms =>
      let (r, ms') := run_layers (forward training) ms x in
      (r, Sequential ms')
  end.

End nn.

Import nn.

(** ** The source: [DeconvBlock], [conv_block], [Discriminator], [Generator] *)

(** The constructors of [torch.nn] draw the initial weights at random.
    Here a constructor receives them: [layer_params] holds what one
    block needs, and a network receives one [layer_params] per layer
    position.  Training only changes these values, so a statement for
    every choice of them covers every instance the constructor can give
    rise to. *)
Record layer_params : Type := mk_params {
  conv_weight : weight4;
  bn_weight : nat -> R;
  bn_bias : nat -> R;
  bn_init : bn_buffers
}.

(** [class DeconvBlock], [__init__].  The flag [bn] is accepted and not
    read: [self.bn] is a [BatchNorm2d] whatever its value. *)
Definition DeconvBlock (n_in n_out ks stride pad : nat) (bn : bool)
           (th : layer_params) : Module :=
  DeconvBlockM
    (ConvTranspose2d n_in n_out ks stride pad (conv_weight th))
    (BatchNorm2d n_out (bn_weight th) (bn_bias th) (bn_init th))
    ReLU.

(** Python's [a // b] on naturals: [ZeroDivisionError] for [b = 0]. *)
Definition floordiv (a b : nat) : option nat :=
  if (b =? 0)%nat then None else Some (a / b)%nat.

(** [def conv_block(n_in, n_out, ks, stride, pad=None, bn=True)]. *)
Definition conv_block (n_in n_out ks stride : nat) (pad : option nat)
           (bn : bool) (th : layer_params) : option Module :=
  match (match pad with
         | None => floordiv (ks / 2) stride
         | Some p => Some p
         end) with
  | None => None
  | Some pad =>
      if Bool.eqb bn true then
        Some (Sequential
                [ Conv2d n_in n_out ks stride pad (conv_weight th);
                  BatchNorm2d n_out (bn_weight th) (bn_bias th) (bn_init th);
                  LeakyReLU (2 / 10) ])
      else
        Some (Sequential
                [ Conv2d n_in n_out ks stride pad (conv_weight th);
                  LeakyReLU (2 / 10) ])
  end.

(** Sequencing of constructors that may raise. *)
Definition bind {A B : Type} (a : option A) (f : A -> option B) : option B :=
  match a with
  | Some x => f x
  | None => None
  end.

Notation "x <- a ;; b" := (bind a (fun x => b))
  (at level 61, a at next level, right associativity).

Module Discriminator.

(** The attributes of an instance; [training] is the flag every
    [nn.Module] carries, set by [nn.Module.__init__]. *)
Record t : Type := mk {
  ngpu : Z;
  im_size : Z;
  main64 : Module;
  main128 : Module;
  training : bool
}.

(** [Discriminator.__init__(self, im_size, ks, ndf, nc=3, ngpu=1)];
    [th k] holds the initial parameters of the [k]-th layer built. *)
Definition new (im_size : Z) (ks ndf nc : nat) (ngpu : Z)
           (th : nat -> layer_params) : option t :=
  a1 <- conv_block nc ndf ks 2 (Some 1%nat) false (th 0%nat) ;;
  a2 <- conv_block ndf (ndf * 2) ks 2 (Some 1%nat) true (th 1%nat) ;;
  a3 <- conv_block (ndf * 2) (ndf * 4) ks 2 (Some 1%nat) true (th 2%nat) ;;
  a4 <- conv_block (ndf * 4) (ndf * 8) ks 2 (Some 1%nat) true (th 3%nat) ;;
  let a5 := Conv2d (ndf * 8) 1 ks 1 0 (conv_weight (th 4%nat)) in
  b1 <- conv_block nc ndf ks 2 (Some 1%nat) false (th 5%nat) ;;
  b2 <- conv_block ndf (ndf * 2) ks 2 (Some 1%nat) true (th 6%nat) ;;
  b3 <- conv_block (ndf * 2) (ndf * 4) ks 2 (Some 1%nat) true (th 7%nat) ;;
  b4 <- conv_block (ndf * 4) (ndf * 8) ks 2 (Some 1%nat) true (th 8%nat) ;;
  b5 <- conv_block (ndf * 8) (ndf * 16) ks 2 (Some 1%nat) true (th 9%nat) ;;
  let b6 := Conv2d (ndf * 16) 1 ks 1 0 (conv_weight (th 10%nat)) in
  Some (mk ngpu im_size
           (Sequential [a1; a2; a3; a4; a5])
           (Sequential [b1; b2; b3; b4; b5; b6])
           true).

(** [nn.Module.train(mode)] and [nn.Module.eval()]. *)
Definition train (mode : bool) (d : t) : t :=
  mk (ngpu d) (im_size d) (main64 d) (main128 d) mode.

Definition eval (d : t) : t := train false d.

(** [.mean(0).view(1)] on the result of a pipeline. *)
Definition score (r : option tensor) : option tensor :=
  y <- r ;; view [1%nat] (mean0 y).

(** [Discriminator.forward]. *)
Definition forward (d : t) (input : tensor) : option tensor * t :=
  if (im_size d =? 64)%Z then
    let (r, m) := nn.forward (training d) (main64 d) input in
    (score r, mk (ngpu d) (im_size d) m (main128 d) (training d))
  else
    let (r, m) := nn.forward (training d) (main128 d) input in
    (score r, mk (ngpu d) (im_size d) (main64 d) m (training d)).

End Discriminator.

Module Generator.

Record t : Type := mk {
  ngpu : Z;
  im_size : Z;
  main64 : Module;
  main128 : Module;
  training : bool
}.

(** [Generator.__init__(self, im_size, ks, nz, ngf, nc=3, ngpu=1)]. *)
Definition new (im_size : Z) (ks nz ngf nc : nat) (ngpu : Z)
           (th : nat -> layer_params) : t :=
  mk ngpu im_size
     (Sequential
        [ DeconvBlock nz (ngf * 8) ks 1 0 true (th 0%nat);
          DeconvBlock (ngf * 8) (ngf * 4) ks 2 1 true (th 1%nat);
          DeconvBlock (ngf * 4) (ngf * 2) ks 2 1 true (th 2%nat);
          DeconvBlock (ngf * 2) ngf ks 2 1 true (th 3%nat);
          ConvTranspose2d ngf nc ks 2 1 (conv_weight (th 4%nat));
          Tanh ])
     (Sequential
        [ DeconvBlock nz (ngf * 16) ks 1 0 true (th 5%nat);
          DeconvBlock (ngf * 16) (ngf * 8) ks 2 1 true (th 6%nat);
          DeconvBlock (ngf * 8) (ngf * 4) ks 2 1 true (th 7%nat);
          DeconvBlock (ngf * 4) (ngf * 2) ks 2 1 true (th 8%nat);
          DeconvBlock (ngf * 2) ngf ks 2 1 true (th 9%nat);
          ConvTranspose2d ngf nc ks 2 1 (conv_weight (th 10%nat));
          Tanh ])
     true.

Definition train (mode : bool) (g : t) : t :=
  mk (ngpu g) (im_size g) (main64 g) (main128 g) mode.

Definition eval (g : t) : t := train false g.

(** [Generator.forward]. *)
Definition forward (g : t) (input : tensor) : option tensor * t :=
  if (im_size g =? 64)%Z then
    let (r, m) := nn.forward (training g) (main64 g) input in
    (r, mk (ngpu g) (im_size g) m (main128 g) (training g))
  else
    let (r, m) := nn.forward (training g) (main128 g) input in
    (r, mk (ngpu g) (im_size g) (main64 g) m (training g)).

End Generator.

(** ** Shapes, stages and observers *)

(** The shape of [m(x)] from the shape of [x] alone: the shape part of
    [nn.forward], with the same exceptions. *)
Definition conv_shape (out : nat -> nat -> nat -> nat -> option nat)
           (cin cout k s p : nat) (sh : shape) : option shape :=
  match sh with
  | [n; c; h; w] =>
      if weightless cin cout k then None
      else if (c =? cin)%nat then
        match out h k s p, out w k s p with
        | Some h', Some w' => Some [n; cout; h'; w']
        | _, _ => None
        end
      else None
  | _ => None
  end.

Definition batch_norm_shape (training : bool) (nf : nat) (sh : shape)
  : option shape :=
  match sh with
  | [n; c; h; w] =>
      if training then
        if (n * h * w =? 1)%nat then None
        else if (c =? nf)%nat then Some sh else None
      else if (c =? nf)%nat then Some sh else None
  | _ => None
  end.

Definition run_shapes (f : Module -> shape -> option shape)
  : list Module -> shape -> option shape :=
  fix go (ms : list Module) (sh : shape) : option shape :=
    match ms with
    | [] => Some sh
    | m :: ms' =>
        match f m sh with
        | None => None
        | Some sh' => go ms' sh'
        end
    end.

Fixpoint out_shape (training : bool) (m : Module) (sh : shape) {struct m}
  : option shape :=
  match m with
  | Conv2d cin cout k s p _ => conv_shape conv_out cin cout k s p sh
  | ConvTranspose2d cin cout k s p _ => conv_shape deconv_out cin cout k s p sh
  | BatchNorm2d nf _ _ _ => batch_norm_shape training nf sh
  | ReLU | LeakyReLU _ | Tanh => Some sh
  | DeconvBlockM conv bn act =>
      match out_shape training conv sh with
      | None => None
      | Some s1 =>
          match out_shape training act s1 with
          | None => None
          | Some s2 => if truthy bn then out_shape training bn s2 else Some s2
          end
      end
  | Sequential ms => run_shapes (out_shape training) ms sh
  end.

(** The stages of a pipeline, in order. *)
Definition stages (m : Module) : list Module :=
  match m with
  | Sequential ms => ms
  | _ => [m]
  end.

Definition is_batch_norm (m : Module) : bool :=
  match m with
  | BatchNorm2d _ _ _ _ => true
  | _ => false
  end.

(** Whether one stage applies batch normalisation to what passes
    through it. *)
Definition normalizes (m : Module) : bool :=
  match m with
  | BatchNorm2d _ _ _ _ => true
  | DeconvBlockM _ bn _ => truthy bn && is_batch_norm bn
  | Sequential ms => existsb is_batch_norm ms
  | _ => false
  end.

(** The convolution of a stage, as (input channels, output channels,
    kernel size, stride, padding), when the stage has one. *)
Fixpoint conv_config (m : Module) : option (nat * nat * nat * nat * nat) :=
  match m with
  | Conv2d cin cout k s p _ => Some (cin, cout, k, s, p)
  | ConvTranspose2d cin cout k s p _ => Some (cin, cout, k, s, p)
  | DeconvBlockM conv _ _ => conv_config conv
  | Sequential (c :: _) => conv_config c
  | _ => None
  end.

Definition in_channels_of (m : Module) : option nat :=
  option_map (fun c => match c with (cin, _, _, _, _) => cin end)
             (conv_config m).

Definition out_channels_of (m : Module) : option nat :=
  option_map (fun c => match c with (_, cout, _, _, _) => cout end)
             (conv_config m).

Definition stride_of (m : Module) : option nat :=
  option_map (fun c => match c with (_, _, _, s, _) => s end)
             (conv_config m).

(** The stages of a pipeline that hold a convolution. *)
Definition conv_stages (m : Module) : list Module :=
  filter (fun s => match conv_config s with Some _ => true | None => false end)
         (stages m).

Fixpoint somes {A : Type} (l : list (option A)) : list A :=
  match l with
  | [] => []
  | Some a :: l' => a :: somes l'
  | None :: l' => somes l'
  end.

(** The internal channel counts of a pipeline: the output channels of
    every convolution stage but the last, which are also the input
    channels of every convolution stage but the first. *)
Definition internal_channels (m : Module) : list nat :=
  removelast (somes (map out_channels_of (conv_stages m))).

(** The batch counters of the normalisation layers, in order. *)
Fixpoint counters (m : Module) : list nat :=
  match m with
  | BatchNorm2d _ _ _ b => [num_batches_tracked b]
  | DeconvBlockM conv bn act => counters conv ++ counters bn ++ counters act
  | Sequential ms => flat_map counters ms
  | _ => []
  end.

(** The module with the buffers of every normalisation layer replaced
    by [b0]: what is left is the architecture and the learned
    parameters. *)
Fixpoint with_buffers (b0 : bn_buffers) (m : Module) : Module :=
  match m with
  | BatchNorm2d nf g b _ => BatchNorm2d nf g b b0
  | DeconvBlockM conv bn act =>
      DeconvBlockM (with_buffers b0 conv) (with_buffers b0 bn)
                   (with_buffers b0 act)
  | Sequential ms => Sequential (map (with_buffers b0) ms)
  | _ => m
  end.

(** Entries within bounds. *)
Definition bounded (lo hi : R) (t : tensor) : Prop :=
  forall ix, (lo <= data t ix <= hi)%R.

(** ** Sample values *)

(** Initial buffers of [nn.BatchNorm2d]: mean 0, variance 1, no batch
    seen. *)
Definition fresh_buffers : bn_buffers :=
  mk_buffers (fun _ => 0%R) (fun _ => 1%R) 0.

Definition sample_params : nat -> layer_params :=
  fun _ => mk_params (fun _ _ _ _ => 1%R) (fun _ => 1%R) (fun _ => 0%R)
                     fresh_buffers.

(** The tensor of the given shape with every entry [v]. *)
Definition full (s : shape) (v : R) : tensor := Tensor.mk s (fun _ => v).

(** ** Properties of an instance *)

(** The pipeline [forward] runs: the branch on the stored [im_size]. *)
Definition Generator_pipeline (g : Generator.t) : Module :=
  if (Generator.im_size g =? 64)%Z
  then Generator.main64 g else Generator.main128 g.

Definition Discriminator_pipeline (d : Discriminator.t) : Module :=
  if (Discriminator.im_size d =? 64)%Z
  then Discriminator.main64 d else Discriminator.main128 d.

(** [g] maps every latent batch [N x nz x 1 x 1] to an image batch
    [N x 3 x res x res] with entries in [-1, 1]. *)
Definition generator_maps (g : Generator.t) (nz res : nat) : Prop :=
  forall (N : nat) (x : tensor),
    dims x = [N; nz; 1; 1]%nat ->
    exists y,
      fst (Generator.forward g x) = Some y
      /\ dims y = [N; 3; res; res]%nat
      /\ bounded (-1) 1 y.

(** [d] maps every image batch [N x 3 x res x res] to a tensor of shape
    [1]: its pipeline ends in a single-channel map, and the entry of the
    result is the average of that map. *)
Definition discriminator_scores (d : Discriminator.t) (res : nat) : Prop :=
  forall (N : nat) (x : tensor),
    dims x = [N; 3; res; res]%nat ->
    exists (m y : tensor) (h w : nat),
      fst (nn.forward (Discriminator.training d) (Discriminator_pipeline d) x)
      = Some m
      /\ dims m = [N; 1; h; w]%nat
      /\ fst (Discriminator.forward d x) = Some y
      /\ dims y = [1]%nat
      /\ data y [0]%nat = batch_mean m N h w 0.

(** ** Properties of a stage *)

(** The order of computation inside a generator block: transposed
    convolution, then [ReLU], then batch normalisation. *)
Definition deconv_relu_norm (m : Module) : Prop :=
  exists cin cout k s p wt gamma beta bufs,
    m = DeconvBlockM (ConvTranspose2d cin cout k s p wt)
                     (BatchNorm2d cout gamma beta bufs) ReLU
    /\ forall tr x,
         fst (forward tr m x)
         = (x1 <- conv_transpose2d_forward cin cout k s p wt x ;;
            fst (batch_norm2d_forward tr cout gamma beta bufs
                                      (pointwise relu x1))).

(** The order of computation inside a normalising discriminator block:
    convolution, then batch normalisation, then [LeakyReLU(0.2)]. *)
Definition conv_norm_leaky (m : Module) : Prop :=
  exists cin cout k s p wt gamma beta bufs,
    m = Sequential [ Conv2d cin cout k s p wt;
                     BatchNorm2d cout gamma beta bufs;
                     LeakyReLU (2 / 10) ]
    /\ forall tr x,
         fst (forward tr m x)
         = (x1 <- conv2d_forward cin cout k s p wt x ;;
            x2 <- fst (batch_norm2d_forward tr cout gamma beta bufs x1) ;;
            Some (pointwise (leaky_relu (2 / 10)) x2)).

(** A stage doubles the spatial resolution ... *)
Definition doubles (m : Module) : Prop :=
  exists cin cout,
    in_channels_of m = Some cin /\ out_channels_of m = Some cout
    /\ forall tr n h w,
         (1 <= h)%nat -> (1 <= w)%nat ->
         out_shape tr m [n; cin; h; w] = Some [n; cout; 2 * h; 2 * w]%nat.

(** ... and halves the channel depth. *)
Definition halves (m : Module) : Prop :=
  exists cin cout,
    in_channels_of m = Some cin /\ out_channels_of m = Some cout
    /\ cin = (2 * cout)%nat.

(** The chain of a generator pipeline as the specification words it:
    every stride-2 stage doubles the resolution and halves the depth,
    the first internal depth is [start] and the last stage has [final]
    output channels. *)
Definition upsampling_chain (m : Module) (start final : nat) : Prop :=
  (forall s, In s (conv_stages m) -> stride_of s = Some 2%nat ->
             doubles s /\ halves s)
  /\ hd_error (internal_channels m) = Some start
  /\ option_map out_channels_of (last (map Some (conv_stages m)) None)
     = Some (Some final).

(** A chain of blocks from depth [cin] down to depth [cout]: each
    block takes the depth the stage before it gives, doubles the
    resolution and gives half that depth to the next. *)
Fixpoint halving_chain (cin : nat) (blocks : list Module) (cout : nat)
  : Prop :=
  match blocks with
  | [] => cin = cout
  | b :: bs =>
      exists c,
        in_channels_of b = Some cin /\ out_channels_of b = Some c
        /\ cin = (2 * c)%nat
        /\ doubles b
        /\ halving_chain c bs cout
  end.

(** The chain of a generator pipeline as the code builds it.  The
    stages are a first stage from the latent [nz x 1 x 1] to
    [start x 4 x 4], a chain of blocks from depth [start] down to
    [ngf], a last stage that takes the [ngf] channels of the last block
    to [nc] channels and doubles the resolution, and [Tanh]; together
    they take a latent batch [n x nz x 1 x 1] to an image batch
    [n x nc x res x res]. *)
Definition generator_chain (m : Module) (nz start ngf nc res : nat) : Prop :=
  exists first blocks final,
    stages m = first :: blocks ++ [final; Tanh]
    /\ in_channels_of first = Some nz
    /\ out_channels_of first = Some start
    /\ (forall tr n, out_shape tr first [n; nz; 1; 1]
                     = Some [n; start; 4; 4]%nat)
    /\ blocks <> []
    /\ halving_chain start blocks ngf
    /\ in_channels_of final = Some ngf
    /\ out_channels_of final = Some nc
    /\ doubles final
    /\ hd_error (internal_channels m) = Some start
    /\ (forall tr n, out_shape tr m [n; nz; 1; 1]
                     = Some [n; nc; res; res]%nat).

(** The spatial part of one block: sizes out, from the batch size and
    the sizes in; the channel counts play no part. *)
Definition block_spatial (out : nat -> nat -> nat -> nat -> option nat)
           (norm : bool) (tr : bool) (k s p n h w : nat)
  : option (nat * nat) :=
  match out h k s p, out w k s p with
  | Some h', Some w' =>
      if norm && tr && (n * h' * w' =? 1)%nat then None else Some (h', w')
  | _, _ => None
  end.

(** A shape from the batch size, a channel count and spatial sizes. *)
Definition with_channels (n cout : nat) (hw : nat * nat) : shape :=
  [n; cout; fst hw; snd hw].

(** ** Properties of two instances *)

(** Equal in every attribute but [ngpu]. *)
Definition Generator_same_but_ngpu (g1 g2 : Generator.t) : Prop :=
  Generator.im_size g1 = Generator.im_size g2
  /\ Generator.main64 g1 = Generator.main64 g2
  /\ Generator.main128 g1 = Generator.main128 g2
  /\ Generator.training g1 = Generator.training g2.

Definition Discriminator_same_but_ngpu (d1 d2 : Discriminator.t) : Prop :=
  Discriminator.im_size d1 = Discriminator.im_size d2
  /\ Discriminator.main64 d1 = Discriminator.main64 d2
  /\ Discriminator.main128 d1 = Discriminator.main128 d2
  /\ Discriminator.training d1 = Discriminator.training d2.

(** Equal in every attribute but the buffers of the normalisation
    layers. *)
Definition Generator_same_but_buffers (g1 g2 : Generator.t) : Prop :=
  Generator.ngpu g1 = Generator.ngpu g2
  /\ Generator.im_size g1 = Generator.im_size g2
  /\ Generator.training g1 = Generator.training g2
  /\ with_buffers fresh_buffers (Generator.main64 g1)
     = with_buffers fresh_buffers (Generator.main64 g2)
  /\ with_buffers fresh_buffers (Generator.main128 g1)
     = with_buffers fresh_buffers (Generator.main128 g2).

Definition Discriminator_same_but_buffers (d1 d2 : Discriminator.t) : Prop :=
  Discriminator.ngpu d1 = Discriminator.ngpu d2
  /\ Discriminator.im_size d1 = Discriminator.im_size d2
  /\ Discriminator.training d1 = Discriminator.training d2
  /\ with_buffers fresh_buffers (Discriminator.main64 d1)
     = with_buffers fresh_buffers (Discriminator.main64 d2)
  /\ with_buffers fresh_buffers (Discriminator.main128 d1)
     = with_buffers fresh_buffers (Discriminator.main128 d2).

(** Internal channel counts in the ratio of the base widths [a], [b]. *)
Definition scaled (a b : nat) (cs cs' : list nat) : Prop :=
  Forall2 (fun c c' => (c * b = c' * a)%nat) cs cs'.

(** ** Batches and traces *)

(** Two batches of the same shape that agree on sample [n]. *)
Definition agree_on_sample (n : nat) (x x' : tensor) : Prop :=
  dims x = dims x' /\ forall rest, data x (n :: rest) = data x' (n :: rest).

(** The same, for two results of a forward pass: both are exceptions,
    or both are tensors that agree on sample [n]. *)
Definition results_agree_on_sample (n : nat) (r r' : option tensor) : Prop :=
  match r, r' with
  | Some y, Some y' => agree_on_sample n y y'
  | None, None => True
  | _, _ => False
  end.

(** The tensors met along a pipeline: the result of each stage in turn,
    up to the first exception. *)
Fixpoint intermediate (training : bool) (ms : list Module) (x : tensor)
  : list tensor :=
  match ms with
  | [] => []
  | m :: ms' =>
      match fst (forward training m x) with
      | None => []
      | Some y => y :: intermediate training ms' y
      end
  end.

(** The shapes [out_shape] gives along a pipeline. *)
Fixpoint shape_trace (training : bool) (ms : list Module) (sh : shape)
  : list shape :=
  match ms with
  | [] => []
  | m :: ms' =>
      match out_shape training m sh with
      | None => []
      | Some sh' => sh' :: shape_trace training ms' sh'
      end
  end.

(** ** Induction over modules *)

Section Module_induction.

Variable P : Module -> Prop.

Hypothesis P_Conv2d : forall cin cout k s p w, P (Conv2d cin cout k s p w).
Hypothesis P_ConvTranspose2d :
  forall cin cout k s p w, P (ConvTranspose2d cin cout k s p w).
Hypothesis P_BatchNorm2d : forall nf g b bufs, P (BatchNorm2d nf g b bufs).
Hypothesis P_ReLU : P ReLU.
Hypothesis P_LeakyReLU : forall s, P (LeakyReLU s).
Hypothesis P_Tanh : P Tanh.
Hypothesis P_DeconvBlockM :
  forall conv bn act, P conv -> P bn -> P act -> P (DeconvBlockM conv bn act).
Hypothesis P_Sequential : forall ms, Forall P ms -> P (Sequential ms).

Fixpoint Module_nested_ind (m : Module) : P m :=
  match m as m0 return P m0 with
  | Conv2d cin cout k s p w => P_Conv2d cin cout k s p w
  | ConvTranspose2d cin cout k s p w => P_ConvTranspose2d cin cout k s p w
  | BatchNorm2d nf g b bufs => P_BatchNorm2d nf g b bufs
  | ReLU => P_ReLU
  | LeakyReLU s => P_LeakyReLU s
  | Tanh => P_Tanh
  | DeconvBlockM conv bn act =>
      P_DeconvBlockM (Module_nested_ind conv) (Module_nested_ind bn)
                     (Module_nested_ind act)
  | Sequential ms =>
      P_Sequential
        ((fix all (l : list Module) : Forall P l :=
            match l as l0 return Forall P l0 with
            | [] => Forall_nil P
            | x :: l' => Forall_cons x (Module_nested_ind x) (all l')
            end) ms)
  end.

End Module_induction.

(** ** The forward pass and shapes *)

Lemma conv2d_forward_dims cin cout k s p w x :
  option_map dims (conv2d_forward cin cout k s p w x)
  = conv_shape conv_out cin cout k s p (dims x).
Proof.
  unfold conv2d_forward, conv_shape.
  destruct (dims x) as [|n [|c [|h [|wd [|? ?]]]]]; try reflexivity.
  destruct (weightless cin cout k); [reflexivity|].
  destruct (c =? cin)%nat; [|reflexivity].
  destruct (conv_out h k s p); [|reflexivity].
  destruct (conv_out wd k s p); reflexivity.
Qed.

Lemma conv_transpose2d_forward_dims cin cout k s p w x :
  option_map dims (conv_transpose2d_forward cin cout k s p w x)
  = conv_shape deconv_out cin cout k s p (dims x).
Proof.
  unfold conv_transpose2d_forward, conv_shape.
  destruct (dims x) as [|n [|c [|h [|wd [|? ?]]]]]; try reflexivity.
  destruct (weightless cin cout k); [reflexivity|].
  destruct (c =? cin)%nat; [|reflexivity].
  destruct (deconv_out h k s p); [|reflexivity].
  destruct (deconv_out wd k s p); reflexivity.
Qed.

Lemma batch_norm2d_forward_dims tr nf g b bufs x :
  option_map dims (fst (batch_norm2d_forward tr nf g b bufs x))
  = batch_norm_shape tr nf (dims x).
Proof.
  unfold batch_norm2d_forward, batch_norm_shape.
  destruct (dims x) as [|n [|c [|h [|wd [|? ?]]]]]; try reflexivity.
  destruct tr.
  - destruct (n * h * wd =? 1)%nat; [reflexivity|].
    destruct (c =? nf)%nat; reflexivity.
  - destruct (c =? nf)%nat; reflexivity.
Qed.

Lemma run_layers_dims tr ms :
  Forall (fun m => forall x,
            option_map dims (fst (forward tr m x)) = out_shape tr m (dims x))
         ms ->
  forall x,
    option_map dims (fst (run_layers (forward tr) ms x))
    = run_shapes (out_shape tr) ms (dims x).
Proof.
  induction 1 as [|m ms Hm _ IH]; intros x; [reflexivity|].
  cbn [run_layers run_shapes].
  specialize (Hm x).
  destruct (forward tr m x) as [[y|] m']; cbn [fst option_map] in Hm;
    rewrite <- Hm; [|reflexivity].
  specialize (IH y).
  destruct (run_layers (forward tr) ms y) as [r ms'']; exact IH.
Qed.

(** The shape of the result of [forward] is the one [out_shape] gives,
    and [forward] raises exactly when [out_shape] does. *)
Lemma forward_dims tr m :
  forall x, option_map dims (fst (forward tr m x)) = out_shape tr m (dims x).
Proof.
  induction m using Module_nested_ind; intros x; cbn [forward out_shape].
  - apply conv2d_forward_dims.
  - apply conv_transpose2d_forward_dims.
  - pose proof (batch_norm2d_forward_dims tr nf g b bufs x) as E.
    destruct (batch_norm2d_forward tr nf g b bufs x); exact E.
  - reflexivity.
  - reflexivity.
  - reflexivity.
  - specialize (IHm1 x).
    destruct (forward tr m1 x) as [[x1|] c']; cbn [fst option_map] in IHm1;
      rewrite <- IHm1; [|reflexivity].
    specialize (IHm3 x1).
    destruct (forward tr m3 x1) as [[x2|] a']; cbn [fst option_map] in IHm3;
      rewrite <- IHm3; [|reflexivity].
    destruct (truthy m2); [|reflexivity].
    specialize (IHm2 x2).
    destruct (forward tr m2 x2) as [r b']; exact IHm2.
  - pose proof (@run_layers_dims tr ms H x) as E.
    destruct (run_layers (forward tr) ms x); exact E.
Qed.

Lemma forward_some_dims tr m x sh :
  out_shape tr m (dims x) = Some sh ->
  exists y, fst (forward tr m x) = Some y /\ dims y = sh.
Proof.
  intros E. rewrite <- forward_dims in E.
  destruct (fst (forward tr m x)) as [y|]; [|discriminate].
  exists y. split; [reflexivity|]. now inversion E.
Qed.

Lemma forward_none tr m x :
  out_shape tr m (dims x) = None -> fst (forward tr m x) = None.
Proof.
  intros E. rewrite <- forward_dims in E.
  destruct (fst (forward tr m x)); [discriminate|reflexivity].
Qed.

(** ** The forward pass and the stored state *)

Lemma run_layers_eval ms :
  Forall (fun m => forall x, snd (forward false m x) = m) ms ->
  forall x, snd (run_layers (forward false) ms x) = ms.
Proof.
  induction 1 as [|m ms Hm _ IH]; intros x; [reflexivity|].
  cbn [run_layers].
  specialize (Hm x).
  destruct (forward false m x) as [[y|] m']; cbn [snd] in Hm; subst m';
    [|reflexivity].
  specialize (IH y).
  destruct (run_layers (forward false) ms y) as [r ms'']; cbn [snd] in *.
  now subst ms''.
Qed.

(** In evaluation mode a forward pass writes nothing. *)
Lemma forward_eval_unchanged m :
  forall x, snd (forward false m x) = m.
Proof.
  induction m using Module_nested_ind; intros x; cbn [forward];
    try reflexivity.
  - unfold batch_norm2d_forward.
    destruct (dims x) as [|n [|c [|h [|wd [|? ?]]]]]; try reflexivity.
    destruct (c =? nf)%nat; reflexivity.
  - specialize (IHm1 x).
    destruct (forward false m1 x) as [[x1|] c']; cbn [snd] in *; subst c';
      [|reflexivity].
    specialize (IHm3 x1).
    destruct (forward false m3 x1) as [[x2|] a']; cbn [snd] in *; subst a';
      [|reflexivity].
    destruct (truthy m2); [|reflexivity].
    specialize (IHm2 x2).
    destruct (forward false m2 x2) as [r b']; cbn [snd] in *. now subst b'.
  - pose proof (@run_layers_eval ms H x) as E.
    destruct (run_layers (forward false) ms x); cbn [snd] in *. now subst.
Qed.

Lemma truthy_with_buffers b0 m : truthy (with_buffers b0 m) = truthy m.
Proof.
  destruct m; cbn; try reflexivity. now rewrite length_map.
Qed.

Lemma run_layers_buffers_after tr b0 ms :
  Forall (fun m => forall x,
            with_buffers b0 (snd (forward tr m x)) = with_buffers b0 m) ms ->
  forall x,
    map (with_buffers b0) (snd (run_layers (forward tr) ms x))
    = map (with_buffers b0) ms.
Proof.
  induction 1 as [|m ms Hm _ IH]; intros x; [reflexivity|].
  cbn [run_layers].
  specialize (Hm x).
  destruct (forward tr m x) as [[y|] m']; cbn [snd] in Hm.
  - specialize (IH y).
    destruct (run_layers (forward tr) ms y) as [r ms'']; cbn [snd map] in *.
    now rewrite Hm, IH.
  - cbn [snd map]. now rewrite Hm.
Qed.

(** A forward pass changes nothing but the buffers of the
    normalisation layers. *)
Lemma forward_buffers_only tr b0 m :
  forall x, with_buffers b0 (snd (forward tr m x)) = with_buffers b0 m.
Proof.
  induction m using Module_nested_ind; intros x; cbn [forward];
    try reflexivity.
  - destruct (batch_norm2d_forward tr nf g b bufs x); reflexivity.
  - specialize (IHm1 x).
    destruct (forward tr m1 x) as [[x1|] c']; cbn [snd] in *;
      [|cbn [with_buffers]; now rewrite IHm1].
    specialize (IHm3 x1).
    destruct (forward tr m3 x1) as [[x2|] a']; cbn [snd] in *;
      [|cbn [with_buffers]; now rewrite IHm1, IHm3].
    destruct (truthy m2); [|cbn [snd with_buffers]; now rewrite IHm1, IHm3].
    specialize (IHm2 x2).
    destruct (forward tr m2 x2) as [r b']; cbn [snd with_buffers] in *.
    now rewrite IHm1, IHm2, IHm3.
  - pose proof (@run_layers_buffers_after tr b0 ms H x) as E.
    destruct (run_layers (forward tr) ms x); cbn [snd with_buffers] in *.
    now rewrite E.
Qed.

Lemma run_layers_train_output b0 ms :
  Forall (fun m => forall x,
            fst (forward true (with_buffers b0 m) x) = fst (forward true m x))
         ms ->
  forall x,
    fst (run_layers (forward true) (map (with_buffers b0) ms) x)
    = fst (run_layers (forward true) ms x).
Proof.
  induction 1 as [|m ms Hm _ IH]; intros x; [reflexivity|].
  cbn [run_layers map].
  specialize (Hm x).
  destruct (forward true (with_buffers b0 m) x) as [r1 m1].
  destruct (forward true m x) as [r2 m2]. cbn [fst] in Hm. subst r2.
  destruct r1 as [y|]; [|reflexivity].
  specialize (IH y).
  destruct (run_layers (forward true) (map (with_buffers b0) ms) y).
  destruct (run_layers (forward true) ms y). exact IH.
Qed.

(** In training mode the result of a forward pass does not depend on
    the buffers: the batch is normalised with its own statistics. *)
Lemma forward_train_output b0 m :
  forall x, fst (forward true (with_buffers b0 m) x) = fst (forward true m x).
Proof.
  induction m using Module_nested_ind; intros x;
    cbn [forward with_buffers]; try reflexivity.
  - unfold batch_norm2d_forward.
    destruct (dims x) as [|n [|c [|h [|wd [|? ?]]]]]; try reflexivity.
    destruct (n * h * wd =? 1)%nat; [reflexivity|].
    destruct (c =? nf)%nat; reflexivity.
  - rewrite truthy_with_buffers.
    specialize (IHm1 x).
    destruct (forward true (with_buffers b0 m1) x) as [r1 c1].
    destruct (forward true m1 x) as [r1' c1']. cbn [fst] in IHm1. subst r1'.
    destruct r1 as [x1|]; [|reflexivity].
    specialize (IHm3 x1).
    destruct (forward true (with_buffers b0 m3) x1) as [r2 a1].
    destruct (forward true m3 x1) as [r2' a1']. cbn [fst] in IHm3. subst r2'.
    destruct r2 as [x2|]; [|reflexivity].
    destruct (truthy m2); [|reflexivity].
    specialize (IHm2 x2).
    destruct (forward true (with_buffers b0 m2) x2).
    destruct (forward true m2 x2). exact IHm2.
  - pose proof (@run_layers_train_output b0 ms H x) as E.
    destruct (run_layers (forward true) (map (with_buffers b0) ms) x).
    destruct (run_layers (forward true) ms x). exact E.
Qed.

(** Two forward passes in a row on the same input give the same
    result, in either mode. *)
Lemma forward_twice tr m x :
  fst (forward tr (snd (forward tr m x)) x) = fst (forward tr m x).
Proof.
  destruct tr.
  - rewrite <- (forward_train_output fresh_buffers (snd (forward true m x))).
    rewrite forward_buffers_only.
    apply forward_train_output.
  - now rewrite forward_eval_unchanged.
Qed.

(** ** The range of [tanh] *)

Lemma tanh_range (x : R) : (-1 <= tanh x <= 1)%R.
Proof.
  unfold tanh, sinh, cosh.
  pose proof (exp_pos x) as Hp.
  pose proof (exp_pos (- x)) as Hn.
  assert (Hc : (0 < (exp x + exp (- x)) / 2)%R) by lra.
  split.
  - apply Rmult_le_reg_r with ((exp x + exp (- x)) / 2)%R; [exact Hc|].
    unfold Rdiv at 2. rewrite Rmult_assoc, Rinv_l by lra. lra.
  - apply Rmult_le_reg_r with ((exp x + exp (- x)) / 2)%R; [exact Hc|].
    unfold Rdiv at 1. rewrite Rmult_assoc, Rinv_l by lra. lra.
Qed.

(** ** Shapes through the blocks of the source *)

(** A weight with at least one input channel, one output channel and
    a kernel of positive size has entries. *)
Lemma weightless_false cin cout k :
  (1 <= cin)%nat -> (1 <= cout)%nat -> (1 <= k)%nat ->
  weightless cin cout k = false.
Proof.
  intros Hi Ho Hk. unfold weightless.
  destruct cin; [lia|]. destruct cout; [lia|]. destruct k; [lia|].
  reflexivity.
Qed.

Lemma deconv_block_shape tr cin cout k s p bn th n h w h' w' :
  deconv_out h k s p = Some h' ->
  deconv_out w k s p = Some w' ->
  (n * h' * w' =? 1)%nat = false ->
  weightless cin cout k = false ->
  out_shape tr (DeconvBlock cin cout k s p bn th) [n; cin; h; w]
  = Some [n; cout; h'; w'].
Proof.
  intros Hh Hw Hn He. unfold DeconvBlock.
  cbn [out_shape conv_shape truthy batch_norm_shape].
  rewrite He, Nat.eqb_refl, Hh, Hw.
  cbn [out_shape conv_shape truthy batch_norm_shape].
  rewrite Hn, Nat.eqb_refl. now destruct tr.
Qed.

Lemma conv_block_shape tr cin cout k s p bn th n h w h' w' :
  conv_out h k s p = Some h' ->
  conv_out w k s p = Some w' ->
  (n * h' * w' =? 1)%nat = false ->
  weightless cin cout k = false ->
  exists blk,
    conv_block cin cout k s (Some p) bn th = Some blk
    /\ out_shape tr blk [n; cin; h; w] = Some [n; cout; h'; w'].
Proof.
  intros Hh Hw Hn He. unfold conv_block.
  destruct bn; cbn [Bool.eqb]; eexists; (split; [reflexivity|]);
    cbn [out_shape run_shapes conv_shape batch_norm_shape];
    rewrite He, Nat.eqb_refl, Hh, Hw;
    cbn [out_shape run_shapes conv_shape batch_norm_shape]; [|reflexivity].
  rewrite Hn, Nat.eqb_refl. now destruct tr.
Qed.

Lemma batch_not_single n a b :
  (2 <= a)%nat -> (1 <= b)%nat -> (n * a * b =? 1)%nat = false.
Proof.
  intros Ha Hb. apply Nat.eqb_neq. intros E.
  apply Nat.eq_mul_1 in E. destruct E as [E _].
  apply Nat.eq_mul_1 in E. lia.
Qed.

(** A pipeline that ends in [Tanh] has its entries in [-1, 1]. *)
Lemma run_layers_tanh_bounded tr ms :
  forall x y,
    fst (run_layers (forward tr) (ms ++ [Tanh]) x) = Some y ->
    bounded (-1) 1 y.
Proof.
  induction ms as [|m ms IH]; intros x y E.
  - cbn in E. inversion E. intros ix. apply tanh_range.
  - cbn [app run_layers] in E.
    destruct (forward tr m x) as [[x1|] m']; [|discriminate].
    specialize (IH x1 y).
    destruct (run_layers (forward tr) (ms ++ [Tanh]) x1). exact (IH E).
Qed.

Lemma forward_sequential_fst tr ms x :
  fst (forward tr (Sequential ms) x) = fst (run_layers (forward tr) ms x).
Proof.
  cbn [forward]. now destruct (run_layers (forward tr) ms x).
Qed.

(** [Generator.forward] and [Discriminator.forward] run the selected
    pipeline. *)
Lemma Generator_forward_fst g x :
  fst (Generator.forward g x)
  = fst (forward (Generator.training g) (Generator_pipeline g) x).
Proof.
  unfold Generator.forward, Generator_pipeline.
  destruct (Generator.im_size g =? 64)%Z;
    match goal with |- context [forward ?t ?m x] =>
      destruct (forward t m x) end; reflexivity.
Qed.

Lemma Discriminator_forward_fst d x :
  fst (Discriminator.forward d x)
  = Discriminator.score
      (fst (forward (Discriminator.training d) (Discriminator_pipeline d) x)).
Proof.
  unfold Discriminator.forward, Discriminator_pipeline.
  destruct (Discriminator.im_size d =? 64)%Z;
    match goal with |- context [forward ?t ?m x] =>
      destruct (forward t m x) end; reflexivity.
Qed.

(** One stage of a pipeline on a shape with concrete spatial sizes;
    the channel counts are positive by the hypotheses at hand. *)
Ltac shape_step :=
  match goal with
  | |- context [out_shape ?tr (DeconvBlock ?cin ?cout ?k ?s ?p ?bn ?th)
                          [?n; ?cin; ?h; ?w]] =>
      let rh := eval vm_compute in (deconv_out h k s p) in
      let rw := eval vm_compute in (deconv_out w k s p) in
      match constr:((rh, rw)) with
      | (Some ?h', Some ?w') =>
          rewrite (@deconv_block_shape tr cin cout k s p bn th n h w h' w'
                                       eq_refl eq_refl)
            by first [ apply batch_not_single; lia
                     | apply weightless_false; lia ]
      end
  | |- context [conv_shape ?out ?cin ?cout ?k ?s ?p [?n; ?cin; ?h; ?w]] =>
      unfold conv_shape at 1;
      rewrite (@weightless_false cin cout k) by lia;
      rewrite Nat.eqb_refl;
      let rh := eval vm_compute in (out h k s p) in
      let rw := eval vm_compute in (out w k s p) in
      change (out h k s p) with rh; change (out w k s p) with rw
  end;
  cbn iota beta.

Lemma generator_main64_shape tr im nz ngf nc ngpu th N :
  (1 <= nz)%nat -> (1 <= ngf)%nat -> (1 <= nc)%nat ->
  out_shape tr (Generator.main64 (Generator.new im 4 nz ngf nc ngpu th))
            [N; nz; 1; 1]
  = Some [N; nc; 64; 64].
Proof.
  intros Hnz Hngf Hnc. unfold Generator.new. cbn [Generator.main64 out_shape run_shapes].
  do 5 shape_step. reflexivity.
Qed.

Lemma generator_main128_shape tr im nz ngf nc ngpu th N :
  (1 <= nz)%nat -> (1 <= ngf)%nat -> (1 <= nc)%nat ->
  out_shape tr (Generator.main128 (Generator.new im 4 nz ngf nc ngpu th))
            [N; nz; 1; 1]
  = Some [N; nc; 128; 128].
Proof.
  intros Hnz Hngf Hnc. unfold Generator.new. cbn [Generator.main128 out_shape run_shapes].
  do 6 shape_step. reflexivity.
Qed.

Lemma generator_pipeline_bounded g x y :
  (exists ms, Generator_pipeline g = Sequential (ms ++ [Tanh])) ->
  fst (Generator.forward g x) = Some y ->
  bounded (-1) 1 y.
Proof.
  intros [ms E] H. rewrite Generator_forward_fst, E in H.
  rewrite forward_sequential_fst in H.
  exact (run_layers_tanh_bounded _ _ _ H).
Qed.

Lemma generator_pipeline_ends_tanh mode im ks nz ngf nc ngpu th :
  exists ms,
    Generator_pipeline
      (Generator.train mode (Generator.new im ks nz ngf nc ngpu th))
    = Sequential (ms ++ [Tanh]).
Proof.
  unfold Generator_pipeline, Generator.train, Generator.new.
  cbn [Generator.im_size Generator.main64 Generator.main128].
  destruct (im =? 64)%Z.
  - eexists [_; _; _; _; _]. reflexivity.
  - eexists [_; _; _; _; _; _]. reflexivity.
Qed.

(** C1, as amended: with kernel size 4, 3 output channels, at least one
    latent channel and a base width of at least 1, in either mode, a
    generator built for resolution 64 maps a latent batch
    [N x nz x 1 x 1] to an image batch [N x 3 x 64 x 64], one built for
    resolution 128 maps it to [N x 3 x 128 x 128], and every entry of
    the result lies in [-1, 1]. *)
Theorem generator_output_shape_and_range :
  forall (nz ngf : nat) (ngpu : Z) (th : nat -> layer_params) (mode : bool),
    (1 <= nz)%nat -> (1 <= ngf)%nat ->
    generator_maps
      (Generator.train mode (Generator.new 64 4 nz ngf 3 ngpu th)) nz 64
    /\ generator_maps
         (Generator.train mode (Generator.new 128 4 nz ngf 3 ngpu th)) nz 128.
Proof.
  intros nz ngf ngpu th mode Hnz Hngf. split; intros N x Hx.
  - destruct (@forward_some_dims mode
                (Generator.main64 (Generator.new 64 4 nz ngf 3 ngpu th))
                x [N; 3; 64; 64]%nat) as [y [Hy Hd]].
    { rewrite Hx. apply generator_main64_shape; lia. }
    exists y. rewrite Generator_forward_fst. split; [exact Hy|].
    split; [exact Hd|].
    apply generator_pipeline_bounded
      with (g := Generator.train mode (Generator.new 64 4 nz ngf 3 ngpu th))
           (x := x).
    + apply generator_pipeline_ends_tanh.
    + rewrite Generator_forward_fst. exact Hy.
  - destruct (@forward_some_dims mode
                (Generator.main128 (Generator.new 128 4 nz ngf 3 ngpu th))
                x [N; 3; 128; 128]%nat) as [y [Hy Hd]].
    { rewrite Hx. apply generator_main128_shape; lia. }
    exists y. rewrite Generator_forward_fst. split; [exact Hy|].
    split; [exact Hd|].
    apply generator_pipeline_bounded
      with (g := Generator.train mode (Generator.new 128 4 nz ngf 3 ngpu th))
           (x := x).
    + apply generator_pipeline_ends_tanh.
    + rewrite Generator_forward_fst. exact Hy.
Qed.

(** The amended C1 at a sample instance and a sample latent batch. *)
Lemma generator_output_shape_and_range_witness :
  exists y,
    fst (Generator.forward
           (Generator.train true (Generator.new 64 4 2 1 3 1 sample_params))
           (full [5; 2; 1; 1]%nat 0))
    = Some y
    /\ dims y = [5; 3; 64; 64]%nat
    /\ bounded (-1) 1 y.
Proof.
  apply (proj1 (@generator_output_shape_and_range
                  2 1 1 sample_params true
                  (le_S 1 1 (le_n 1)) (le_n 1))).
  reflexivity.
Defined.

(** C1 as stated fails: with kernel size 3 the resolution-64 generator
    turns a latent [1 x 1 x 1 x 1] into an image [1 x 3 x 33 x 33], with
    [nc = 1] it yields one channel, and with a base width [ngf = 0] or
    no latent channel ([nz = 0]) its layers have weights without
    entries and [forward] raises. *)
Lemma generator_shape_needs_ks4_nc3 :
  ~ generator_maps (Generator.new 64 3 1 1 3 1 sample_params) 1 64
  /\ ~ generator_maps (Generator.new 64 4 1 1 1 1 sample_params) 1 64
  /\ option_map dims
       (fst (Generator.forward (Generator.new 64 3 1 1 3 1 sample_params)
                               (full [1; 1; 1; 1]%nat 0)))
     = Some [1; 3; 33; 33]%nat
  /\ option_map dims
       (fst (Generator.forward (Generator.new 64 4 1 1 1 1 sample_params)
                               (full [1; 1; 1; 1]%nat 0)))
     = Some [1; 1; 64; 64]%nat
  /\ ~ generator_maps (Generator.new 64 4 2 0 3 1 sample_params) 2 64
  /\ ~ generator_maps (Generator.new 64 4 0 1 3 1 sample_params) 0 64
  /\ option_map dims
       (fst (Generator.forward (Generator.new 64 4 2 0 3 1 sample_params)
                               (full [1; 2; 1; 1]%nat 0)))
     = None
  /\ option_map dims
       (fst (Generator.forward (Generator.new 64 4 0 1 3 1 sample_params)
                               (full [1; 0; 1; 1]%nat 0)))
     = None.
Proof.
  assert (E3 : option_map dims
       (fst (Generator.forward (Generator.new 64 3 1 1 3 1 sample_params)
                               (full [1; 1; 1; 1]%nat 0)))
     = Some [1; 3; 33; 33]%nat) by (vm_compute; reflexivity).
  assert (E1 : option_map dims
       (fst (Generator.forward (Generator.new 64 4 1 1 1 1 sample_params)
                               (full [1; 1; 1; 1]%nat 0)))
     = Some [1; 1; 64; 64]%nat) by (vm_compute; reflexivity).
  assert (Z1 : option_map dims
       (fst (Generator.forward (Generator.new 64 4 2 0 3 1 sample_params)
                               (full [1; 2; 1; 1]%nat 0)))
     = None) by (vm_compute; reflexivity).
  assert (Z2 : option_map dims
       (fst (Generator.forward (Generator.new 64 4 0 1 3 1 sample_params)
                               (full [1; 0; 1; 1]%nat 0)))
     = None) by (vm_compute; reflexivity).
  repeat split; trivial.
  - intros H. destruct (H 1%nat (full [1; 1; 1; 1]%nat 0) eq_refl)
      as [y [Hy [Hd _]]].
    rewrite Hy in E3. cbn in E3. rewrite Hd in E3. discriminate.
  - intros H. destruct (H 1%nat (full [1; 1; 1; 1]%nat 0) eq_refl)
      as [y [Hy [Hd _]]].
    rewrite Hy in E1. cbn in E1. rewrite Hd in E1. discriminate.
  - intros H. destruct (H 1%nat (full [1; 2; 1; 1]%nat 0) eq_refl)
      as [y [Hy _]].
    rewrite Hy in Z1. discriminate.
  - intros H. destruct (H 1%nat (full [1; 0; 1; 1]%nat 0) eq_refl)
      as [y [Hy _]].
    rewrite Hy in Z2. discriminate.
Qed.

(** ** The discriminator's score *)

Lemma sum_upto_ext n f g :
  (forall k, f k = g k) -> sum_upto n f = sum_upto n g.
Proof.
  intros E. induction n as [|n IH]; [reflexivity|].
  cbn [sum_upto]. now rewrite IH, E.
Qed.

(** [.mean(0).view(1)] on a map [N x 1 x 1 x 1]: the shape is [1] and
    the entry is the average of the map. *)
Lemma score_of_single_map m N :
  dims m = [N; 1; 1; 1]%nat ->
  exists y,
    Discriminator.score (Some m) = Some y
    /\ dims y = [1]%nat
    /\ data y [0]%nat = batch_mean m N 1 1 0.
Proof.
  intros Hm. unfold Discriminator.score, bind, view, mean0. rewrite Hm.
  cbn [dims numel fold_right Nat.mul Nat.eqb].
  eexists. split; [reflexivity|]. split; [reflexivity|].
  cbn [data]. unfold batch_mean.
  rewrite !Nat.mul_1_r. f_equal.
  apply sum_upto_ext. intros k. cbn. lra.
Qed.

Lemma if_same_branches (A : Type) (b : bool) (a : A) :
  (if b then a else a) = a.
Proof. now destruct b. Qed.

Ltac norm_step :=
  unfold batch_norm_shape at 1;
  rewrite batch_not_single by lia; rewrite Nat.eqb_refl;
  cbn iota beta; rewrite if_same_branches; cbn iota beta.

Lemma discriminator_shapes tr im ndf nc ngpu th N :
  (1 <= ndf)%nat -> (1 <= nc)%nat ->
  exists d,
    Discriminator.new im 4 ndf nc ngpu th = Some d
    /\ Discriminator.im_size d = im
    /\ out_shape tr (Discriminator.main64 d) [N; nc; 64; 64]
       = Some [N; 1; 1; 1]
    /\ out_shape tr (Discriminator.main128 d) [N; nc; 128; 128]
       = Some [N; 1; 1; 1].
Proof.
  intros Hndf Hnc.
  eexists. split; [reflexivity|]. split; [reflexivity|].
  cbn [Discriminator.main64 Discriminator.main128 out_shape run_shapes].
  split.
  - shape_step. do 3 (shape_step; norm_step). shape_step. reflexivity.
  - shape_step. do 4 (shape_step; norm_step). shape_step. reflexivity.
Qed.

Lemma discriminator_scores_of_shape d res :
  (forall N,
      out_shape (Discriminator.training d) (Discriminator_pipeline d)
                [N; 3; res; res]
      = Some [N; 1; 1; 1]%nat) ->
  discriminator_scores d res.
Proof.
  intros Hs N x Hx.
  destruct (@forward_some_dims (Discriminator.training d)
              (Discriminator_pipeline d) x [N; 1; 1; 1]%nat)
    as [m [Hm Hd]].
  { rewrite Hx. apply Hs. }
  destruct (score_of_single_map m Hd) as [y [Hy [Hdy Hv]]].
  exists m, y, 1%nat, 1%nat.
  rewrite Discriminator_forward_fst, Hm. auto.
Qed.

(** C2, as amended: with kernel size 4, 3 input channels and a base
    width of at least 1, in either mode, a discriminator built for
    resolution 64 maps an image batch [N x 3 x 64 x 64], and one built
    for resolution 128 maps an image batch [N x 3 x 128 x 128], to a
    tensor of shape [1]; the pipeline ends in a single-channel map
    [N x 1 x 1 x 1] and the entry of the result is the average of that
    map. *)
Theorem discriminator_score_shape :
  forall (ndf : nat) (ngpu : Z) (th : nat -> layer_params) (mode : bool),
    (1 <= ndf)%nat ->
    (exists d,
        Discriminator.new 64 4 ndf 3 ngpu th = Some d
        /\ discriminator_scores (Discriminator.train mode d) 64)
    /\ (exists d,
           Discriminator.new 128 4 ndf 3 ngpu th = Some d
           /\ discriminator_scores (Discriminator.train mode d) 128).
Proof.
  intros ndf ngpu th mode Hndf.
  assert (H3 : (1 <= 3)%nat) by lia. split.
  - destruct (discriminator_shapes mode 64 ngpu th 0 Hndf H3) as [d [Hd _]].
    exists d. split; [exact Hd|].
    apply discriminator_scores_of_shape. intros N.
    destruct (discriminator_shapes mode 64 ngpu th N Hndf H3)
      as [d' [Hd' [Him [H64 _]]]].
    rewrite Hd in Hd'. inversion Hd'. subst d'.
    unfold Discriminator_pipeline, Discriminator.train.
    cbn [Discriminator.im_size Discriminator.main64 Discriminator.training].
    rewrite Him. exact H64.
  - destruct (discriminator_shapes mode 128 ngpu th 0 Hndf H3) as [d [Hd _]].
    exists d. split; [exact Hd|].
    apply discriminator_scores_of_shape. intros N.
    destruct (discriminator_shapes mode 128 ngpu th N Hndf H3)
      as [d' [Hd' [Him [_ H128]]]].
    rewrite Hd in Hd'. inversion Hd'. subst d'.
    unfold Discriminator_pipeline, Discriminator.train.
    cbn [Discriminator.im_size Discriminator.main128 Discriminator.training].
    rewrite Him. exact H128.
Qed.

(** The amended C2 at a sample instance. *)
Lemma discriminator_score_shape_witness :
  exists d,
    Discriminator.new 64 4 2 3 1 sample_params = Some d
    /\ discriminator_scores (Discriminator.train true d) 64.
Proof.
  apply (@discriminator_score_shape 2 1 sample_params true). lia.
Defined.

(** C2 as stated fails: with kernel size 3 the last map of the
    resolution-64 pipeline is [N x 1 x 2 x 2], whose batch mean has four
    entries, and [view(1)] raises; with [nc = 1] the first convolution
    refuses a 3-channel image; and with a base width [ndf = 0] the
    first convolution has a weight without entries and raises. *)
Lemma discriminator_score_needs_ks4_nc3 :
  (exists d,
      Discriminator.new 64 3 1 3 1 sample_params = Some d
      /\ out_shape true (Discriminator.main64 d) [1; 3; 64; 64]%nat
         = Some [1; 1; 2; 2]%nat
      /\ fst (Discriminator.forward d (full [1; 3; 64; 64]%nat 0)) = None
      /\ ~ discriminator_scores d 64)
  /\ (exists d,
         Discriminator.new 64 4 1 1 1 sample_params = Some d
         /\ fst (Discriminator.forward d (full [1; 3; 64; 64]%nat 0)) = None
         /\ ~ discriminator_scores d 64)
  /\ (exists d,
         Discriminator.new 64 4 0 3 1 sample_params = Some d
         /\ fst (Discriminator.forward d (full [1; 3; 64; 64]%nat 0)) = None
         /\ ~ discriminator_scores d 64).
Proof.
  split; [|split].
  - eexists. split; [reflexivity|].
    split; [vm_compute; reflexivity|].
    match goal with |- ?A /\ _ => assert (HA : A) by (vm_compute; reflexivity) end.
    split; [exact HA|].
    intros H. destruct (H 1%nat (full [1; 3; 64; 64]%nat 0) eq_refl)
      as [m [y [h [w [_ [_ [Hy _]]]]]]].
    rewrite HA in Hy. discriminate.
  - eexists. split; [reflexivity|].
    match goal with |- ?A /\ _ => assert (HA : A) by (vm_compute; reflexivity) end.
    split; [exact HA|].
    intros H. destruct (H 1%nat (full [1; 3; 64; 64]%nat 0) eq_refl)
      as [m [y [h [w [_ [_ [Hy _]]]]]]].
    rewrite HA in Hy. discriminate.
  - eexists. split; [reflexivity|].
    match goal with |- ?A /\ _ => assert (HA : A) by (vm_compute; reflexivity) end.
    split; [exact HA|].
    intros H. destruct (H 1%nat (full [1; 3; 64; 64]%nat 0) eq_refl)
      as [m [y [h [w [_ [_ [Hy _]]]]]]].
    rewrite HA in Hy. discriminate.
Qed.

(** ** The blocks *)

Lemma DeconvBlock_order n_in n_out ks stride pad bn th :
  deconv_relu_norm (DeconvBlock n_in n_out ks stride pad bn th).
Proof.
  unfold DeconvBlock. do 9 eexists. split; [reflexivity|].
  intros tr x. cbn [forward truthy].
  destruct (conv_transpose2d_forward n_in n_out ks stride pad
              (conv_weight th) x) as [x1|]; [|reflexivity].
  cbn [bind].
  destruct (batch_norm2d_forward tr n_out (bn_weight th) (bn_bias th)
              (bn_init th) (pointwise relu x1)); reflexivity.
Qed.

Lemma conv_block_order n_in n_out ks stride pad th :
  exists blk,
    conv_block n_in n_out ks stride (Some pad) true th = Some blk
    /\ conv_norm_leaky blk.
Proof.
  eexists. split; [reflexivity|].
  do 9 eexists. split; [reflexivity|].
  intros tr x. cbn [forward run_layers].
  destruct (conv2d_forward n_in n_out ks stride pad (conv_weight th) x)
    as [x1|]; [|reflexivity].
  cbn [bind].
  destruct (batch_norm2d_forward tr n_out (bn_weight th) (bn_bias th)
              (bn_init th) x1) as [[x2|] b']; reflexivity.
Qed.

(** C3, the defect: a [DeconvBlock] built with [bn=False] is the block
    built with [bn=True]; it normalises, and in training mode a forward
    pass advances the batch counter of its normalisation layer.  A
    [conv_block], by contrast, normalises exactly when its flag is
    set. *)
Theorem DeconvBlock_ignores_bn_flag :
  forall (n_in n_out ks stride pad : nat) (th : layer_params),
    DeconvBlock n_in n_out ks stride pad false th
    = DeconvBlock n_in n_out ks stride pad true th
    /\ normalizes (DeconvBlock n_in n_out ks stride pad false th) = true
    /\ deconv_relu_norm (DeconvBlock n_in n_out ks stride pad false th)
    /\ counters (snd (forward true
                        (DeconvBlock 1 1 4 1 0 false (sample_params 0%nat))
                        (full [1; 1; 1; 1]%nat 0)))
       = [1%nat]
    /\ (forall bn, exists blk,
           conv_block n_in n_out ks stride (Some pad) bn th = Some blk
           /\ normalizes blk = bn).
Proof.
  intros n_in n_out ks stride pad th.
  split; [reflexivity|]. split; [reflexivity|].
  split; [apply DeconvBlock_order|].
  split; [vm_compute; reflexivity|].
  intros [|]; eexists; (split; [reflexivity|reflexivity]).
Qed.

(** C4: whatever the configuration, the pipeline a discriminator runs
    is a first stage without normalisation, then stages that all
    normalise, then the final convolution to one channel. *)
Theorem discriminator_first_stage_unnormalized :
  forall (im_size : Z) (ks ndf nc : nat) (ngpu : Z)
         (th : nat -> layer_params),
  exists d first later final wt cin,
    Discriminator.new im_size ks ndf nc ngpu th = Some d
    /\ stages (Discriminator_pipeline d) = first :: later ++ [final]
    /\ normalizes first = false
    /\ Forall (fun s => normalizes s = true) later
    /\ later <> []
    /\ final = Conv2d cin 1 ks 1 0 wt
    /\ (forall tr x, counters (snd (forward tr first x)) = []).
Proof.
  intros im_size ks ndf nc ngpu th.
  unfold Discriminator.new, conv_block, bind. cbn [Bool.eqb].
  unfold Discriminator_pipeline.
  destruct (im_size =? 64)%Z eqn:E.
  - eexists _, _, [_; _; _], _, _, _.
    split; [reflexivity|].
    cbn [Discriminator.im_size Discriminator.main64 Discriminator.main128].
    rewrite E. cbn [stages app].
    split; [reflexivity|]. split; [reflexivity|].
    split; [repeat constructor|]. split; [discriminate|].
    split; [reflexivity|].
    intros tr x. cbn [forward run_layers].
    destruct (conv2d_forward nc ndf ks 2 1 _ x); reflexivity.
  - eexists _, _, [_; _; _; _], _, _, _.
    split; [reflexivity|].
    cbn [Discriminator.im_size Discriminator.main64 Discriminator.main128].
    rewrite E. cbn [stages app].
    split; [reflexivity|]. split; [reflexivity|].
    split; [repeat constructor|]. split; [discriminate|].
    split; [reflexivity|].
    intros tr x. cbn [forward run_layers].
    destruct (conv2d_forward nc ndf ks 2 1 _ x); reflexivity.
Qed.

Lemma conv_norm_leaky_intro cin cout k s p wt gamma beta bufs :
  conv_norm_leaky
    (Sequential [ Conv2d cin cout k s p wt;
                  BatchNorm2d cout gamma beta bufs;
                  LeakyReLU (2 / 10) ]).
Proof.
  do 9 eexists. split; [reflexivity|].
  intros tr x. cbn [forward run_layers].
  destruct (conv2d_forward cin cout k s p wt x) as [x1|]; [|reflexivity].
  cbn [bind].
  destruct (batch_norm2d_forward tr cout gamma beta bufs x1) as [[x2|] b'];
    reflexivity.
Qed.

(** C5: every block of a generator pipeline computes transposed
    convolution, then activation, then normalisation; every normalising
    block of a discriminator pipeline computes convolution, then
    normalisation, then leaky activation.  The same holds of every
    [DeconvBlock] and of every [conv_block] built with [bn=True]. *)
Theorem block_stage_order :
  forall (im_size : Z) (ks nz ngf ndf nc : nat) (ngpu : Z)
         (th : nat -> layer_params),
    (exists blocks wt,
        stages (Generator_pipeline
                  (Generator.new im_size ks nz ngf nc ngpu th))
        = blocks ++ [ConvTranspose2d ngf nc ks 2 1 wt; Tanh]
        /\ blocks <> []
        /\ Forall deconv_relu_norm blocks)
    /\ (exists d first later final,
           Discriminator.new im_size ks ndf nc ngpu th = Some d
           /\ stages (Discriminator_pipeline d) = first :: later ++ [final]
           /\ later <> []
           /\ Forall conv_norm_leaky later
           /\ normalizes first = false
           /\ normalizes final = false)
    /\ (forall n_in n_out k s p bn lp,
           deconv_relu_norm (DeconvBlock n_in n_out k s p bn lp))
    /\ (forall n_in n_out k s p lp,
           exists blk,
             conv_block n_in n_out k s (Some p) true lp = Some blk
             /\ conv_norm_leaky blk).
Proof.
  intros im_size ks nz ngf ndf nc ngpu th.
  split; [|split; [|split]].
  - unfold Generator_pipeline, Generator.new.
    cbn [Generator.im_size Generator.main64 Generator.main128].
    destruct (im_size =? 64)%Z; cbn [stages].
    + eexists [_; _; _; _], _. split; [reflexivity|].
      split; [discriminate|]. repeat constructor; apply DeconvBlock_order.
    + eexists [_; _; _; _; _], _. split; [reflexivity|].
      split; [discriminate|]. repeat constructor; apply DeconvBlock_order.
  - unfold Discriminator.new, conv_block, bind. cbn [Bool.eqb].
    unfold Discriminator_pipeline.
    destruct (im_size =? 64)%Z eqn:E.
    + eexists _, _, [_; _; _], _. split; [reflexivity|].
      cbn [Discriminator.im_size Discriminator.main64 Discriminator.main128].
      rewrite E. cbn [stages app].
      split; [reflexivity|]. split; [discriminate|].
      split; [repeat constructor; apply conv_norm_leaky_intro|].
      split; reflexivity.
    + eexists _, _, [_; _; _; _], _. split; [reflexivity|].
      cbn [Discriminator.im_size Discriminator.main64 Discriminator.main128].
      rewrite E. cbn [stages app].
      split; [reflexivity|]. split; [discriminate|].
      split; [repeat constructor; apply conv_norm_leaky_intro|].
      split; reflexivity.
  - intros. apply DeconvBlock_order.
  - intros. apply conv_block_order.
Qed.

(** ** The generator's chain *)

Lemma deconv_out_doubles h :
  (1 <= h)%nat -> deconv_out h 4 2 1 = Some (2 * h)%nat.
Proof.
  intros Hh. unfold deconv_out.
  replace (1 <=? 2)%nat with true by reflexivity.
  replace (1 <=? h)%nat with true by (symmetry; apply Nat.leb_le; exact Hh).
  replace (2 * 1 <=? (h - 1) * 2 + 4)%nat with true
    by (symmetry; apply Nat.leb_le; lia).
  cbn [andb]. f_equal. lia.
Qed.

Lemma DeconvBlock_doubles cin cout bn th :
  (1 <= cin)%nat -> (1 <= cout)%nat ->
  doubles (DeconvBlock cin cout 4 2 1 bn th).
Proof.
  intros Hi Ho.
  exists cin, cout. split; [reflexivity|]. split; [reflexivity|].
  intros tr n h w Hh Hw.
  apply deconv_block_shape; try (apply deconv_out_doubles; assumption).
  - apply Nat.eqb_neq. intros E.
    apply Nat.eq_mul_1 in E. destruct E as [E _].
    apply Nat.eq_mul_1 in E. lia.
  - apply weightless_false; lia.
Qed.

Lemma ConvTranspose2d_doubles cin cout wt :
  (1 <= cin)%nat -> (1 <= cout)%nat ->
  doubles (ConvTranspose2d cin cout 4 2 1 wt).
Proof.
  intros Hi Ho.
  exists cin, cout. split; [reflexivity|]. split; [reflexivity|].
  intros tr n h w Hh Hw. cbn [out_shape conv_shape].
  rewrite (@weightless_false cin cout 4) by lia.
  now rewrite Nat.eqb_refl, !deconv_out_doubles by assumption.
Qed.

Lemma first_stage_shape tr nz cout bn th n :
  (1 <= nz)%nat -> (1 <= cout)%nat ->
  out_shape tr (DeconvBlock nz cout 4 1 0 bn th) [n; nz; 1; 1]
  = Some [n; cout; 4; 4]%nat.
Proof.
  intros Hi Ho. apply deconv_block_shape; try reflexivity.
  - apply batch_not_single; lia.
  - apply weightless_false; lia.
Qed.

(** One block of a chain: its depths, and that it doubles. *)
Ltac chain_block :=
  eexists; split; [reflexivity|]; split; [reflexivity|];
  split; [lia|]; split; [apply DeconvBlock_doubles; lia|].

(** C6, as amended: with kernel size 4 and at least one latent channel,
    a base width of at least 1 and at least one output channel, each
    generator pipeline is a first stage from the latent [nz x 1 x 1] to
    [ngf*8 x 4 x 4] (resolution 64) or [ngf*16 x 4 x 4] (resolution
    128), then blocks that each take the depth of the stage before,
    double the resolution and halve the depth, down to [ngf], then a
    last stage that doubles the resolution and goes from [ngf] to [nc]
    channels, then [Tanh]; the pipeline takes a latent batch
    [n x nz x 1 x 1] to an image batch [n x nc x 64 x 64] (resolution
    64) or [n x nc x 128 x 128] (resolution 128). *)
Theorem generator_upsampling_chain :
  forall (im_size : Z) (nz ngf nc : nat) (ngpu : Z)
         (th : nat -> layer_params),
    (1 <= nz)%nat -> (1 <= ngf)%nat -> (1 <= nc)%nat ->
    generator_chain
      (Generator.main64 (Generator.new im_size 4 nz ngf nc ngpu th))
      nz (ngf * 8) ngf nc 64
    /\ generator_chain
         (Generator.main128 (Generator.new im_size 4 nz ngf nc ngpu th))
         nz (ngf * 16) ngf nc 128.
Proof.
  intros im_size nz ngf nc ngpu th Hnz Hngf Hnc. split.
  - eexists _, [_; _; _], _. split; [reflexivity|].
    split; [reflexivity|]. split; [reflexivity|].
    split; [intros; apply first_stage_shape; lia|].
    split; [discriminate|].
    split; [cbn [halving_chain]; do 3 chain_block; reflexivity|].
    split; [reflexivity|]. split; [reflexivity|].
    split; [apply ConvTranspose2d_doubles; lia|].
    split; [reflexivity|].
    intros tr n. apply generator_main64_shape; lia.
  - eexists _, [_; _; _; _], _. split; [reflexivity|].
    split; [reflexivity|]. split; [reflexivity|].
    split; [intros; apply first_stage_shape; lia|].
    split; [discriminate|].
    split; [cbn [halving_chain]; do 4 chain_block; reflexivity|].
    split; [reflexivity|]. split; [reflexivity|].
    split; [apply ConvTranspose2d_doubles; lia|].
    split; [reflexivity|].
    intros tr n. apply generator_main128_shape; lia.
Qed.

(** The amended C6 at the usual configuration. *)
Lemma generator_upsampling_chain_witness :
  generator_chain
    (Generator.main64 (Generator.new 64 4 100 64 3 1 sample_params))
    100 (64 * 8) 64 3 64.
Proof.
  apply (@generator_upsampling_chain 64 100 64 3 1 sample_params); lia.
Defined.

(** C6 as stated fails, on four counts: with kernel size 3 a stride-2
    stage turns 3 x 3 into 5 x 5; with [nc = 1] the chain ends at one
    channel; with the usual [ks = 4], [ngf = 64], [nc = 3] the last
    stride-2 stage goes from 64 channels to 3, not to 32; and with a
    base width [ngf = 0] the stride-2 stages have weights without
    entries and raise instead of doubling anything. *)
Lemma upsampling_chain_fails :
  ~ upsampling_chain
      (Generator.main64 (Generator.new 64 3 100 64 3 1 sample_params))
      (64 * 8) 3
  /\ ~ upsampling_chain
         (Generator.main64 (Generator.new 64 4 100 64 1 1 sample_params))
         (64 * 8) 3
  /\ ~ upsampling_chain
         (Generator.main64 (Generator.new 64 4 100 64 3 1 sample_params))
         (64 * 8) 3
  /\ ~ upsampling_chain
         (Generator.main64 (Generator.new 64 4 100 0 3 1 sample_params))
         (0 * 8) 3.
Proof.
  split; [|split; [|split]].
  - intros [H _].
    destruct (H (DeconvBlock (64 * 8) (64 * 4) 3 2 1 true
                             (sample_params 1%nat)))
      as [[cin [cout [Hi [Ho Hd]]]] _].
    + cbn. auto.
    + reflexivity.
    + cbn in Hi, Ho. inversion Hi. inversion Ho. subst cin cout.
      specialize (Hd false 1%nat 3%nat 3%nat (le_S _ _ (le_S _ _ (le_n 1)))
                     (le_S _ _ (le_S _ _ (le_n 1)))).
      vm_compute in Hd. inversion Hd.
  - intros [_ [_ H]]. vm_compute in H. discriminate.
  - intros [H _].
    destruct (H (ConvTranspose2d 64 3 4 2 1
                                 (conv_weight (sample_params 4%nat))))
      as [_ [cin [cout [Hi [Ho Hc]]]]].
    + cbn. auto 10.
    + reflexivity.
    + cbn in Hi, Ho. inversion Hi. inversion Ho. subst cin cout. lia.
  - intros [H _].
    destruct (H (DeconvBlock (0 * 8) (0 * 4) 4 2 1 true
                             (sample_params 1%nat)))
      as [[cin [cout [Hi [Ho Hd]]]] _].
    + cbn. auto.
    + reflexivity.
    + cbn in Hi, Ho. inversion Hi. inversion Ho. subst cin cout.
      specialize (Hd false 1%nat 1%nat 1%nat (le_n 1) (le_n 1)).
      vm_compute in Hd. discriminate.
Qed.

(** ** Base widths *)

Lemma weightless_no_kernel cin cout : weightless cin cout 0 = true.
Proof. unfold weightless. cbn [Nat.eqb]. apply Bool.orb_true_r. Qed.

Lemma weightless_no_output cin k : weightless cin 0 k = true.
Proof.
  unfold weightless. cbn [Nat.eqb]. now rewrite Bool.orb_true_r.
Qed.

Lemma weightless_no_input cout k : weightless 0 cout k = true.
Proof. reflexivity. Qed.

Lemma conv_shape_spatial out cin cout k s p n c h w :
  conv_shape out cin cout k s p [n; c; h; w]
  = if weightless cin cout k then None
    else if (c =? cin)%nat
    then option_map (with_channels n cout)
                    (block_spatial out false false k s p n h w)
    else None.
Proof.
  unfold conv_shape, block_spatial.
  destruct (weightless cin cout k); [reflexivity|].
  destruct (c =? cin)%nat; [|reflexivity].
  destruct (out h k s p); [|reflexivity].
  destruct (out w k s p); reflexivity.
Qed.

Lemma DeconvBlock_shape_spatial tr cin cout k s p bn th n c h w :
  out_shape tr (DeconvBlock cin cout k s p bn th) [n; c; h; w]
  = if weightless cin cout k then None
    else if (c =? cin)%nat
    then option_map (with_channels n cout)
                    (block_spatial deconv_out true tr k s p n h w)
    else None.
Proof.
  unfold DeconvBlock, block_spatial.
  cbn [out_shape conv_shape truthy].
  destruct (weightless cin cout k); [reflexivity|].
  destruct (c =? cin)%nat; [|reflexivity].
  destruct (deconv_out h k s p) as [h'|]; [|reflexivity].
  destruct (deconv_out w k s p) as [w'|]; [|reflexivity].
  cbn [batch_norm_shape andb]. rewrite Nat.eqb_refl.
  destruct tr; [|reflexivity].
  destruct (n * h' * w' =? 1)%nat; reflexivity.
Qed.

Lemma conv_norm_shape_spatial tr cin cout k s p wt g b bufs sl n c h w :
  out_shape tr (Sequential [ Conv2d cin cout k s p wt;
                             BatchNorm2d cout g b bufs; LeakyReLU sl ])
            [n; c; h; w]
  = if weightless cin cout k then None
    else if (c =? cin)%nat
    then option_map (with_channels n cout)
                    (block_spatial conv_out true tr k s p n h w)
    else None.
Proof.
  unfold block_spatial. cbn [out_shape run_shapes conv_shape].
  destruct (weightless cin cout k); [reflexivity|].
  destruct (c =? cin)%nat; [|reflexivity].
  destruct (conv_out h k s p) as [h'|]; [|reflexivity].
  destruct (conv_out w k s p) as [w'|]; [|reflexivity].
  cbn [batch_norm_shape andb]. rewrite Nat.eqb_refl.
  destruct tr; [|reflexivity].
  destruct (n * h' * w' =? 1)%nat; reflexivity.
Qed.

Lemma conv_leaky_shape_spatial tr cin cout k s p wt sl n c h w :
  out_shape tr (Sequential [ Conv2d cin cout k s p wt; LeakyReLU sl ])
            [n; c; h; w]
  = if weightless cin cout k then None
    else if (c =? cin)%nat
    then option_map (with_channels n cout)
                    (block_spatial conv_out false tr k s p n h w)
    else None.
Proof.
  unfold block_spatial. cbn [out_shape run_shapes conv_shape].
  destruct (weightless cin cout k); [reflexivity|].
  destruct (c =? cin)%nat; [|reflexivity].
  destruct (conv_out h k s p) as [h'|]; [|reflexivity].
  destruct (conv_out w k s p) as [w'|]; reflexivity.
Qed.

Lemma out_shape_sequential tr ms sh :
  out_shape tr (Sequential ms) sh = run_shapes (out_shape tr) ms sh.
Proof. reflexivity. Qed.

Lemma out_shape_Conv2d tr cin cout k s p wt sh :
  out_shape tr (Conv2d cin cout k s p wt) sh
  = conv_shape conv_out cin cout k s p sh.
Proof. reflexivity. Qed.

Lemma out_shape_ConvTranspose2d tr cin cout k s p wt sh :
  out_shape tr (ConvTranspose2d cin cout k s p wt) sh
  = conv_shape deconv_out cin cout k s p sh.
Proof. reflexivity. Qed.

(** One stage on both sides of an equation between two pipelines that
    differ in their positive widths only; the kernel size is positive,
    and the stage has output channels or raises on both sides. *)
Ltac width_step :=
  rewrite ?DeconvBlock_shape_spatial, ?conv_norm_shape_spatial,
          ?conv_leaky_shape_spatial, ?out_shape_Conv2d,
          ?out_shape_ConvTranspose2d, ?conv_shape_spatial;
  rewrite ?weightless_no_output;
  repeat (rewrite weightless_false by lia);
  rewrite ?Nat.eqb_refl; cbn iota;
  try reflexivity;
  match goal with
  | |- context [block_spatial ?o ?nm ?tr ?k ?s ?p ?n ?h ?w] =>
      destruct (block_spatial o nm tr k s p n h w) as [[? ?]|];
      unfold with_channels;
      cbn [option_map fst snd run_shapes]; [|reflexivity]
  end.

Lemma generator_shape_width_free tr im ks nz nc ngpu ngf ngf' th th' sh :
  (1 <= ngf)%nat -> (1 <= ngf')%nat ->
  out_shape tr (Generator_pipeline (Generator.new im ks nz ngf nc ngpu th)) sh
  = out_shape tr
      (Generator_pipeline (Generator.new im ks nz ngf' nc ngpu th')) sh.
Proof.
  intros Hw Hw'. unfold Generator_pipeline, Generator.new.
  cbn [Generator.im_size Generator.main64 Generator.main128].
  destruct sh as [|n [|c [|h [|w [|? ?]]]]];
    try (destruct (im =? 64)%Z; reflexivity).
  destruct ks as [|ks].
  { destruct (im =? 64)%Z; rewrite !out_shape_sequential; cbn [run_shapes];
      rewrite !DeconvBlock_shape_spatial, !weightless_no_kernel;
      reflexivity. }
  destruct nz as [|nz].
  { destruct (im =? 64)%Z; rewrite !out_shape_sequential; cbn [run_shapes];
      rewrite !DeconvBlock_shape_spatial, !weightless_no_input;
      reflexivity. }
  destruct (im =? 64)%Z; rewrite !out_shape_sequential; cbn [run_shapes];
    rewrite !DeconvBlock_shape_spatial;
    repeat (rewrite weightless_false by lia);
    (destruct (c =? S nz)%nat; [|reflexivity]).
  - do 4 width_step. destruct nc; width_step; reflexivity.
  - do 5 width_step. destruct nc; width_step; reflexivity.
Qed.

Lemma discriminator_shape_width_free tr im ks nc ngpu ndf ndf' th th' :
  (1 <= ndf)%nat -> (1 <= ndf')%nat ->
  exists d d',
    Discriminator.new im ks ndf nc ngpu th = Some d
    /\ Discriminator.new im ks ndf' nc ngpu th' = Some d'
    /\ forall sh,
         out_shape tr (Discriminator_pipeline d) sh
         = out_shape tr (Discriminator_pipeline d') sh.
Proof.
  intros Hw Hw'.
  eexists _, _. split; [reflexivity|]. split; [reflexivity|].
  intros sh. unfold Discriminator_pipeline.
  cbn [Discriminator.im_size Discriminator.main64 Discriminator.main128].
  destruct sh as [|n [|c [|h [|w [|? ?]]]]];
    try (destruct (im =? 64)%Z; reflexivity).
  destruct ks as [|ks].
  { destruct (im =? 64)%Z; rewrite !out_shape_sequential; cbn [run_shapes];
      rewrite !conv_leaky_shape_spatial, !weightless_no_kernel;
      reflexivity. }
  destruct nc as [|nc].
  { destruct (im =? 64)%Z; rewrite !out_shape_sequential; cbn [run_shapes];
      rewrite !conv_leaky_shape_spatial, !weightless_no_input;
      reflexivity. }
  destruct (im =? 64)%Z; rewrite !out_shape_sequential; cbn [run_shapes];
    rewrite !conv_leaky_shape_spatial;
    repeat (rewrite weightless_false by lia);
    (destruct (c =? S nc)%nat; [|reflexivity]).
  - do 5 width_step.
  - do 6 width_step.
Qed.

Lemma score_dims r r' :
  option_map dims r = option_map dims r' ->
  option_map dims (Discriminator.score r)
  = option_map dims (Discriminator.score r').
Proof.
  destruct r as [y|], r' as [y'|]; cbn [option_map]; intros E;
    try discriminate; [|reflexivity].
  inversion E as [E']. unfold Discriminator.score, bind, view, mean0.
  destruct (dims y) as [|n s] eqn:Ey; destruct (dims y') as [|n' s'] eqn:Ey';
    try discriminate; inversion E'; subst; cbn [dims]; rewrite ?Ey, ?Ey';
    match goal with |- context [(?a =? ?b)%nat] => destruct (a =? b)%nat end;
    reflexivity.
Qed.

(** C7, as amended: two generators (two discriminators) that differ in
    the base width only, and possibly in their learned parameters, both
    widths being at least 1, have internal channel counts in the ratio
    of the base widths, and give results of the same shape on every
    input, in either mode. *)
Theorem base_width_scaling :
  forall (im_size : Z) (ks nz nc : nat) (ngpu : Z)
         (th th' : nat -> layer_params) (w w' : nat),
    (1 <= w)%nat -> (1 <= w')%nat ->
    (let g := Generator.new im_size ks nz w nc ngpu th in
     let g' := Generator.new im_size ks nz w' nc ngpu th' in
     scaled w w' (internal_channels (Generator.main64 g))
                 (internal_channels (Generator.main64 g'))
     /\ scaled w w' (internal_channels (Generator.main128 g))
                    (internal_channels (Generator.main128 g'))
     /\ internal_channels (Generator.main64 g)
        = [w * 8; w * 4; w * 2; w]%nat
     /\ internal_channels (Generator.main128 g)
        = [w * 16; w * 8; w * 4; w * 2; w]%nat
     /\ forall mode x,
          option_map dims (fst (Generator.forward (Generator.train mode g) x))
          = option_map dims
              (fst (Generator.forward (Generator.train mode g') x)))
    /\ (exists d d',
           Discriminator.new im_size ks w nc ngpu th = Some d
           /\ Discriminator.new im_size ks w' nc ngpu th' = Some d'
           /\ scaled w w' (internal_channels (Discriminator.main64 d))
                          (internal_channels (Discriminator.main64 d'))
           /\ scaled w w' (internal_channels (Discriminator.main128 d))
                          (internal_channels (Discriminator.main128 d'))
           /\ internal_channels (Discriminator.main64 d)
              = [w; w * 2; w * 4; w * 8]%nat
           /\ internal_channels (Discriminator.main128 d)
              = [w; w * 2; w * 4; w * 8; w * 16]%nat
           /\ forall mode x,
                option_map dims
                  (fst (Discriminator.forward (Discriminator.train mode d) x))
                = option_map dims
                    (fst (Discriminator.forward
                            (Discriminator.train mode d') x))).
Proof.
  intros im_size ks nz nc ngpu th th' w w' Hw Hw'. split.
  - cbv zeta.
    split; [|split; [|split; [|split]]]; try reflexivity.
    + change (scaled w w' [w * 8; w * 4; w * 2; w]
                          [w' * 8; w' * 4; w' * 2; w'])%nat.
      unfold scaled. repeat constructor; lia.
    + change (scaled w w' [w * 16; w * 8; w * 4; w * 2; w]
                          [w' * 16; w' * 8; w' * 4; w' * 2; w'])%nat.
      unfold scaled. repeat constructor; lia.
    + intros mode x. rewrite !Generator_forward_fst, !forward_dims.
      apply (@generator_shape_width_free mode im_size ks nz nc ngpu w w'
                                         th th' (dims x) Hw Hw').
  - destruct (@discriminator_shape_width_free true im_size ks nc ngpu w w'
                                               th th' Hw Hw')
      as [d [d' [Hd [Hd' _]]]].
    exists d, d'. split; [exact Hd|]. split; [exact Hd'|].
    unfold Discriminator.new, conv_block, bind in Hd, Hd'.
    cbn [Bool.eqb] in Hd, Hd'. inversion Hd. inversion Hd'. clear Hd Hd'.
    cbn [Discriminator.main64 Discriminator.main128].
    split; [|split; [|split; [|split]]]; try reflexivity.
    + change (scaled w w' [w; w * 2; w * 4; w * 8]
                          [w'; w' * 2; w' * 4; w' * 8])%nat.
      unfold scaled. repeat constructor; lia.
    + change (scaled w w' [w; w * 2; w * 4; w * 8; w * 16]
                          [w'; w' * 2; w' * 4; w' * 8; w' * 16])%nat.
      unfold scaled. repeat constructor; lia.
    + intros mode x. rewrite !Discriminator_forward_fst.
      apply score_dims. rewrite !forward_dims.
      destruct (@discriminator_shape_width_free mode im_size ks nc ngpu w w'
                                                 th th' Hw Hw')
        as [e [e' [He [He' Hs]]]].
      unfold Discriminator.new, conv_block, bind in He, He'.
      cbn [Bool.eqb] in He, He'. inversion He. inversion He'. subst e e'.
      apply Hs.
Qed.

(** The amended C7 at base widths 64 and 128. *)
Lemma base_width_scaling_witness :
  scaled 64 128
    (internal_channels
       (Generator.main64 (Generator.new 64 4 100 64 3 1 sample_params)))
    (internal_channels
       (Generator.main64 (Generator.new 64 4 100 128 3 1 sample_params))).
Proof.
  apply (@base_width_scaling 64 4 100 3 1 sample_params sample_params
                             64 128); lia.
Defined.

(** C7 as stated fails at a base width of 0: the layers then have
    weights without entries, and the networks of width 0 raise on the
    inputs on which those of width 1 return. *)
Lemma base_width_zero_raises :
  option_map dims
    (fst (Generator.forward (Generator.new 64 4 1 0 3 1 sample_params)
                            (full [1; 1; 1; 1]%nat 0)))
  = None
  /\ option_map dims
       (fst (Generator.forward (Generator.new 64 4 1 1 3 1 sample_params)
                               (full [1; 1; 1; 1]%nat 0)))
     = Some [1; 3; 64; 64]%nat
  /\ ~ (forall x,
          option_map dims
            (fst (Generator.forward
                    (Generator.new 64 4 1 0 3 1 sample_params) x))
          = option_map dims
              (fst (Generator.forward
                      (Generator.new 64 4 1 1 3 1 sample_params) x)))
  /\ (exists d d',
         Discriminator.new 64 4 0 3 1 sample_params = Some d
         /\ Discriminator.new 64 4 1 3 1 sample_params = Some d'
         /\ option_map dims
              (fst (Discriminator.forward d (full [1; 3; 64; 64]%nat 0)))
            = None
         /\ option_map dims
              (fst (Discriminator.forward d' (full [1; 3; 64; 64]%nat 0)))
            = Some [1]%nat).
Proof.
  assert (E0 : option_map dims
    (fst (Generator.forward (Generator.new 64 4 1 0 3 1 sample_params)
                            (full [1; 1; 1; 1]%nat 0)))
    = None) by (vm_compute; reflexivity).
  assert (E1 : option_map dims
       (fst (Generator.forward (Generator.new 64 4 1 1 3 1 sample_params)
                               (full [1; 1; 1; 1]%nat 0)))
     = Some [1; 3; 64; 64]%nat) by (vm_compute; reflexivity).
  split; [exact E0|]. split; [exact E1|]. split.
  - intros H. specialize (H (full [1; 1; 1; 1]%nat 0)).
    rewrite E0, E1 in H. discriminate.
  - eexists _, _. split; [reflexivity|]. split; [reflexivity|].
    split; vm_compute; reflexivity.
Qed.

(** ** Selection of the pipeline *)

Lemma Generator_forward_64 g x :
  Generator.im_size g = 64%Z ->
  Generator.forward g x
  = (fst (forward (Generator.training g) (Generator.main64 g) x),
     Generator.mk (Generator.ngpu g) (Generator.im_size g)
       (snd (forward (Generator.training g) (Generator.main64 g) x))
       (Generator.main128 g) (Generator.training g)).
Proof.
  intros E. unfold Generator.forward. rewrite E. cbn [Z.eqb Pos.eqb].
  now destruct (forward (Generator.training g) (Generator.main64 g) x).
Qed.

Lemma Generator_forward_other g x :
  Generator.im_size g <> 64%Z ->
  Generator.forward g x
  = (fst (forward (Generator.training g) (Generator.main128 g) x),
     Generator.mk (Generator.ngpu g) (Generator.im_size g)
       (Generator.main64 g)
       (snd (forward (Generator.training g) (Generator.main128 g) x))
       (Generator.training g)).
Proof.
  intros E. unfold Generator.forward.
  apply Z.eqb_neq in E. rewrite E.
  now destruct (forward (Generator.training g) (Generator.main128 g) x).
Qed.

Lemma Discriminator_forward_64 d x :
  Discriminator.im_size d = 64%Z ->
  Discriminator.forward d x
  = (Discriminator.score
       (fst (forward (Discriminator.training d) (Discriminator.main64 d) x)),
     Discriminator.mk (Discriminator.ngpu d) (Discriminator.im_size d)
       (snd (forward (Discriminator.training d) (Discriminator.main64 d) x))
       (Discriminator.main128 d) (Discriminator.training d)).
Proof.
  intros E. unfold Discriminator.forward. rewrite E. cbn [Z.eqb Pos.eqb].
  now destruct (forward (Discriminator.training d) (Discriminator.main64 d) x).
Qed.

Lemma Discriminator_forward_other d x :
  Discriminator.im_size d <> 64%Z ->
  Discriminator.forward d x
  = (Discriminator.score
       (fst (forward (Discriminator.training d) (Discriminator.main128 d) x)),
     Discriminator.mk (Discriminator.ngpu d) (Discriminator.im_size d)
       (Discriminator.main64 d)
       (snd (forward (Discriminator.training d) (Discriminator.main128 d) x))
       (Discriminator.training d)).
Proof.
  intros E. unfold Discriminator.forward.
  apply Z.eqb_neq in E. rewrite E.
  now destruct
        (forward (Discriminator.training d) (Discriminator.main128 d) x).
Qed.

(** C10: [forward] runs the resolution-64 pipeline when the stored
    [im_size] is 64 and the resolution-128 pipeline for every other
    value; the constructors store every [im_size] they are given and
    refuse none. *)
Theorem im_size_selects_pipeline :
  forall (g : Generator.t) (d : Discriminator.t) (x : tensor),
    (Generator.im_size g = 64%Z ->
     Generator.forward g x
     = (fst (forward (Generator.training g) (Generator.main64 g) x),
        Generator.mk (Generator.ngpu g) (Generator.im_size g)
          (snd (forward (Generator.training g) (Generator.main64 g) x))
          (Generator.main128 g) (Generator.training g)))
    /\ (Generator.im_size g <> 64%Z ->
        Generator.forward g x
        = (fst (forward (Generator.training g) (Generator.main128 g) x),
           Generator.mk (Generator.ngpu g) (Generator.im_size g)
             (Generator.main64 g)
             (snd (forward (Generator.training g) (Generator.main128 g) x))
             (Generator.training g)))
    /\ (Discriminator.im_size d = 64%Z ->
        Discriminator.forward d x
        = (Discriminator.score
             (fst (forward (Discriminator.training d)
                           (Discriminator.main64 d) x)),
           Discriminator.mk (Discriminator.ngpu d) (Discriminator.im_size d)
             (snd (forward (Discriminator.training d)
                           (Discriminator.main64 d) x))
             (Discriminator.main128 d) (Discriminator.training d)))
    /\ (Discriminator.im_size d <> 64%Z ->
        Discriminator.forward d x
        = (Discriminator.score
             (fst (forward (Discriminator.training d)
                           (Discriminator.main128 d) x)),
           Discriminator.mk (Discriminator.ngpu d) (Discriminator.im_size d)
             (Discriminator.main64 d)
             (snd (forward (Discriminator.training d)
                           (Discriminator.main128 d) x))
             (Discriminator.training d)))
    /\ (forall im ks nz ngf nc ngpu th,
           Generator.im_size (Generator.new im ks nz ngf nc ngpu th) = im)
    /\ (forall im ks ndf nc ngpu th,
           exists d',
             Discriminator.new im ks ndf nc ngpu th = Some d'
             /\ Discriminator.im_size d' = im).
Proof.
  intros g d x.
  split; [apply Generator_forward_64|].
  split; [apply Generator_forward_other|].
  split; [apply Discriminator_forward_64|].
  split; [apply Discriminator_forward_other|].
  split; [reflexivity|].
  intros. eexists. split; reflexivity.
Qed.

(** C10 at a generator built with [im_size = 7]: the resolution-128
    pipeline runs, and a latent [1 x 1 x 1 x 1] becomes an image
    [1 x 3 x 128 x 128]. *)
Lemma im_size_selects_pipeline_witness :
  let g := Generator.new 7 4 1 1 3 1 sample_params in
  let x := full [1; 1; 1; 1]%nat 0 in
  Generator.forward g x
  = (fst (forward true (Generator.main128 g) x),
     Generator.mk 1 7 (Generator.main64 g)
                  (snd (forward true (Generator.main128 g) x)) true)
  /\ option_map dims (fst (Generator.forward g x))
     = Some [1; 3; 128; 128]%nat.
Proof.
  intros g x. split.
  - refine (proj1 (proj2 (im_size_selects_pipeline
                            g (Discriminator.mk 1 7 Tanh Tanh true) x)) _).
    cbn. lia.
  - vm_compute. reflexivity.
Defined.

(** ** Determinism and stored state *)

Lemma Generator_forward_snd g x :
  snd (Generator.forward g x)
  = Generator.mk (Generator.ngpu g) (Generator.im_size g)
      (if (Generator.im_size g =? 64)%Z
       then snd (forward (Generator.training g) (Generator.main64 g) x)
       else Generator.main64 g)
      (if (Generator.im_size g =? 64)%Z
       then Generator.main128 g
       else snd (forward (Generator.training g) (Generator.main128 g) x))
      (Generator.training g).
Proof.
  unfold Generator.forward.
  destruct (Generator.im_size g =? 64)%Z;
    match goal with |- context [forward ?t ?m x] =>
      destruct (forward t m x) end; reflexivity.
Qed.

Lemma Discriminator_forward_snd d x :
  snd (Discriminator.forward d x)
  = Discriminator.mk (Discriminator.ngpu d) (Discriminator.im_size d)
      (if (Discriminator.im_size d =? 64)%Z
       then snd (forward (Discriminator.training d)
                         (Discriminator.main64 d) x)
       else Discriminator.main64 d)
      (if (Discriminator.im_size d =? 64)%Z
       then Discriminator.main128 d
       else snd (forward (Discriminator.training d)
                         (Discriminator.main128 d) x))
      (Discriminator.training d).
Proof.
  unfold Discriminator.forward.
  destruct (Discriminator.im_size d =? 64)%Z;
    match goal with |- context [forward ?t ?m x] =>
      destruct (forward t m x) end; reflexivity.
Qed.

Lemma Generator_forward_twice g x :
  fst (Generator.forward (snd (Generator.forward g x)) x)
  = fst (Generator.forward g x).
Proof.
  rewrite (Generator_forward_fst (snd (Generator.forward g x))).
  rewrite Generator_forward_snd, Generator_forward_fst.
  unfold Generator_pipeline.
  cbn [Generator.im_size Generator.main64 Generator.main128
       Generator.training].
  destruct (Generator.im_size g =? 64)%Z; apply forward_twice.
Qed.

Lemma Discriminator_forward_twice d x :
  fst (Discriminator.forward (snd (Discriminator.forward d x)) x)
  = fst (Discriminator.forward d x).
Proof.
  rewrite (Discriminator_forward_fst (snd (Discriminator.forward d x))).
  rewrite Discriminator_forward_snd, Discriminator_forward_fst.
  unfold Discriminator_pipeline.
  cbn [Discriminator.im_size Discriminator.main64 Discriminator.main128
       Discriminator.training].
  destruct (Discriminator.im_size d =? 64)%Z; now rewrite forward_twice.
Qed.

(** C8, as amended: two forward passes in a row on the same input give
    the same result; in evaluation mode a forward pass leaves the
    instance as it was; in either mode it changes nothing but the
    buffers of the normalisation layers. *)
Theorem forward_deterministic_eval_stateless :
  forall (g : Generator.t) (d : Discriminator.t) (x : tensor),
    fst (Generator.forward (snd (Generator.forward g x)) x)
    = fst (Generator.forward g x)
    /\ (Generator.training g = false -> snd (Generator.forward g x) = g)
    /\ Generator_same_but_buffers (snd (Generator.forward g x)) g
    /\ fst (Discriminator.forward (snd (Discriminator.forward d x)) x)
       = fst (Discriminator.forward d x)
    /\ (Discriminator.training d = false ->
        snd (Discriminator.forward d x) = d)
    /\ Discriminator_same_but_buffers (snd (Discriminator.forward d x)) d.
Proof.
  intros g d x.
  split; [apply Generator_forward_twice|].
  split.
  { intros E. rewrite Generator_forward_snd, E.
    rewrite !forward_eval_unchanged.
    destruct g as [n i a b t]. cbn in *. subst t.
    now destruct (i =? 64)%Z. }
  split.
  { rewrite Generator_forward_snd. unfold Generator_same_but_buffers.
    cbn [Generator.ngpu Generator.im_size Generator.training
         Generator.main64 Generator.main128].
    repeat split; destruct (Generator.im_size g =? 64)%Z;
      try reflexivity; apply forward_buffers_only. }
  split; [apply Discriminator_forward_twice|].
  split.
  { intros E. rewrite Discriminator_forward_snd, E.
    rewrite !forward_eval_unchanged.
    destruct d as [n i a b t]. cbn in *. subst t.
    now destruct (i =? 64)%Z. }
  rewrite Discriminator_forward_snd. unfold Discriminator_same_but_buffers.
  cbn [Discriminator.ngpu Discriminator.im_size Discriminator.training
       Discriminator.main64 Discriminator.main128].
  repeat split; destruct (Discriminator.im_size d =? 64)%Z;
    try reflexivity; apply forward_buffers_only.
Qed.

(** The amended C8 at a generator switched to evaluation mode. *)
Lemma forward_deterministic_eval_stateless_witness :
  let g := Generator.eval (Generator.new 64 4 1 1 3 1 sample_params) in
  snd (Generator.forward g (full [1; 1; 1; 1]%nat 0)) = g.
Proof.
  intros g.
  refine (proj1 (proj2 (forward_deterministic_eval_stateless
                          g (Discriminator.mk 1 64 Tanh Tanh false)
                          (full [1; 1; 1; 1]%nat 0))) _).
  reflexivity.
Defined.

(** C8 as stated fails: a freshly built generator or discriminator is
    in training mode, and one forward pass advances the batch counter
    of every normalisation layer of the pipeline it runs. *)
Lemma training_forward_changes_state :
  (let g := Generator.new 64 4 1 1 3 1 sample_params in
   let x := full [1; 1; 1; 1]%nat 0 in
   counters (Generator.main64 g) = [0; 0; 0; 0]%nat
   /\ counters (Generator.main64 (snd (Generator.forward g x)))
      = [1; 1; 1; 1]%nat
   /\ ~ (forall x', snd (Generator.forward g x') = g))
  /\ (exists d,
         Discriminator.new 64 4 1 3 1 sample_params = Some d
         /\ counters (Discriminator.main64 d) = [0; 0; 0]%nat
         /\ counters (Discriminator.main64
                        (snd (Discriminator.forward
                                d (full [1; 3; 64; 64]%nat 0))))
            = [1; 1; 1]%nat
         /\ ~ (forall x', snd (Discriminator.forward d x') = d)).
Proof.
  split.
  - intros g x.
    assert (H0 : counters (Generator.main64 g) = [0; 0; 0; 0]%nat)
      by (vm_compute; reflexivity).
    assert (H1 : counters (Generator.main64 (snd (Generator.forward g x)))
                 = [1; 1; 1; 1]%nat)
      by (vm_compute; reflexivity).
    split; [exact H0|]. split; [exact H1|].
    intros H. rewrite (H x), H0 in H1. discriminate.
  - eexists. split; [reflexivity|].
    match goal with |- ?A /\ ?B /\ _ =>
      assert (H0 : A) by (vm_compute; reflexivity);
      assert (H1 : B) by (vm_compute; reflexivity)
    end.
    split; [exact H0|]. split; [exact H1|].
    intros H. rewrite (H _), H0 in H1. discriminate.
Qed.

(** ** The device count *)

(** C9: [forward] never reads [ngpu].  Two generators (two
    discriminators) that agree in every attribute but [ngpu] give the
    same result on every input and agree in every attribute but [ngpu]
    afterwards; instances built from the same arguments but for [ngpu]
    are such. *)
Theorem ngpu_unused :
  forall (g1 g2 : Generator.t) (d1 d2 : Discriminator.t) (x : tensor),
    (Generator_same_but_ngpu g1 g2 ->
     fst (Generator.forward g1 x) = fst (Generator.forward g2 x)
     /\ Generator_same_but_ngpu (snd (Generator.forward g1 x))
                                (snd (Generator.forward g2 x)))
    /\ (Discriminator_same_but_ngpu d1 d2 ->
        fst (Discriminator.forward d1 x) = fst (Discriminator.forward d2 x)
        /\ Discriminator_same_but_ngpu (snd (Discriminator.forward d1 x))
                                       (snd (Discriminator.forward d2 x)))
    /\ (forall im ks nz ngf nc n1 n2 th,
           Generator_same_but_ngpu (Generator.new im ks nz ngf nc n1 th)
                                   (Generator.new im ks nz ngf nc n2 th))
    /\ (forall im ks ndf nc n1 n2 th,
           exists e1 e2,
             Discriminator.new im ks ndf nc n1 th = Some e1
             /\ Discriminator.new im ks ndf nc n2 th = Some e2
             /\ Discriminator_same_but_ngpu e1 e2).
Proof.
  intros g1 g2 d1 d2 x.
  split; [|split; [|split]].
  - intros [Hi [H64 [H128 Ht]]].
    rewrite !Generator_forward_fst, !Generator_forward_snd.
    unfold Generator_pipeline, Generator_same_but_ngpu.
    cbn [Generator.im_size Generator.main64 Generator.main128
         Generator.training].
    rewrite Hi, H64, H128, Ht. repeat split; reflexivity.
  - intros [Hi [H64 [H128 Ht]]].
    rewrite !Discriminator_forward_fst, !Discriminator_forward_snd.
    unfold Discriminator_pipeline, Discriminator_same_but_ngpu.
    cbn [Discriminator.im_size Discriminator.main64 Discriminator.main128
         Discriminator.training].
    rewrite Hi, H64, H128, Ht. repeat split; reflexivity.
  - intros. repeat split; reflexivity.
  - intros. eexists _, _. split; [reflexivity|]. split; [reflexivity|].
    repeat split; reflexivity.
Qed.

(** C9 at two generators built with [ngpu = 1] and [ngpu = 4]. *)
Lemma ngpu_unused_witness :
  let g1 := Generator.new 64 4 1 1 3 1 sample_params in
  let g2 := Generator.new 64 4 1 1 3 4 sample_params in
  let x := full [2; 1; 1; 1]%nat 0 in
  fst (Generator.forward g1 x) = fst (Generator.forward g2 x)
  /\ Generator_same_but_ngpu (snd (Generator.forward g1 x))
                             (snd (Generator.forward g2 x)).
Proof.
  intros g1 g2 x.
  refine (proj1 (ngpu_unused g1 g2 (Discriminator.mk 1 64 Tanh Tanh true)
                             (Discriminator.mk 4 64 Tanh Tanh true) x) _).
  repeat split; reflexivity.
Defined.

(** * Further properties of the source *)

(** ** [conv_block]: the default padding *)

(** With [pad=None] the padding is [ks // 2 // stride]: the call raises
    exactly when the stride is 0, and an explicit padding never
    raises. *)
Theorem conv_block_default_pad_raises_iff_stride_zero :
  forall (n_in n_out ks stride : nat) (bn : bool) (th : layer_params),
    (conv_block n_in n_out ks stride None bn th = None <-> stride = 0%nat)
    /\ (stride <> 0%nat ->
        conv_block n_in n_out ks stride None bn th
        = conv_block n_in n_out ks stride (Some (ks / 2 / stride)%nat) bn th)
    /\ (forall p,
           conv_block n_in n_out ks stride (Some p) bn th <> None).
Proof.
  intros n_in n_out ks stride bn th. unfold conv_block, floordiv.
  split; [|split].
  - destruct (stride =? 0)%nat eqn:E.
    + apply Nat.eqb_eq in E. tauto.
    + apply Nat.eqb_neq in E. destruct bn; cbn [Bool.eqb];
        split; [discriminate|tauto|discriminate|tauto].
  - intros H. apply Nat.eqb_neq in H. now rewrite H.
  - intros p. destruct bn; cbn [Bool.eqb]; discriminate.
Qed.

Lemma conv_block_default_pad_raises_iff_stride_zero_witness :
  conv_block 3 8 5 2 None true (sample_params 0%nat)
  = conv_block 3 8 5 2 (Some 1%nat) true (sample_params 0%nat).
Proof.
  apply (proj1 (proj2 (conv_block_default_pad_raises_iff_stride_zero
                         3 8 5 2 true (sample_params 0%nat)))).
  lia.
Defined.

Lemma conv_out_same h j :
  (1 <= h)%nat -> conv_out h (2 * j + 1) 1 ((2 * j + 1) / 2) = Some h.
Proof.
  intros Hh.
  assert (E : ((2 * j + 1) / 2 = j)%nat).
  { symmetry. apply (Nat.div_unique (2 * j + 1) 2 j 1); lia. }
  rewrite E. unfold conv_out.
  replace (1 <=? 1)%nat with true by reflexivity.
  replace (2 * j + 1 <=? h + 2 * j)%nat with true
    by (symmetry; apply Nat.leb_le; lia).
  cbn [andb]. rewrite Nat.div_1_r. f_equal. lia.
Qed.

(** With the default padding, stride 1, an odd kernel size and at least
    one input and one output channel, a [conv_block] keeps the spatial
    size: a batch [n x n_in x h x w] becomes [n x n_out x h x w] (in
    training mode a normalising block refuses a batch with a single
    value per channel). *)
Theorem conv_block_default_pad_keeps_size :
  forall (n_in n_out j : nat) (bn tr : bool) (th : layer_params)
         (n h w : nat) (x : tensor),
    (1 <= n_in)%nat -> (1 <= n_out)%nat ->
    dims x = [n; n_in; h; w] ->
    (1 <= h)%nat -> (1 <= w)%nat -> (n * h * w <> 1)%nat ->
    exists blk y,
      conv_block n_in n_out (2 * j + 1) 1 None bn th = Some blk
      /\ fst (forward tr blk x) = Some y
      /\ dims y = [n; n_out; h; w].
Proof.
  intros n_in n_out j bn tr th n h w x Hi Ho Hx Hh Hw Hn.
  apply Nat.eqb_neq in Hn.
  assert (H : exists blk,
             conv_block n_in n_out (2 * j + 1) 1 None bn th = Some blk
             /\ out_shape tr blk [n; n_in; h; w] = Some [n; n_out; h; w]).
  { unfold conv_block, floordiv. cbn [Nat.eqb]. rewrite Nat.div_1_r.
    destruct bn; cbn [Bool.eqb]; eexists; (split; [reflexivity|]);
      cbn [out_shape run_shapes conv_shape];
      rewrite (@weightless_false n_in n_out (2 * j + 1)) by lia;
      rewrite Nat.eqb_refl, !conv_out_same by assumption;
      cbn [batch_norm_shape]; [|reflexivity].
    rewrite Hn, Nat.eqb_refl. now destruct tr. }
  destruct H as [blk [Hb Hs]]. rewrite <- Hx in Hs.
  destruct (forward_some_dims _ _ _ Hs) as [y [Hy Hd]].
  exists blk, y. auto.
Qed.

Lemma conv_block_default_pad_keeps_size_witness :
  exists blk y,
    conv_block 3 8 (2 * 1 + 1) 1 None true (sample_params 0%nat) = Some blk
    /\ fst (forward true blk (full [2; 3; 5; 7]%nat 0)) = Some y
    /\ dims y = [2; 8; 5; 7]%nat.
Proof.
  apply (@conv_block_default_pad_keeps_size 3 8 1 true true
           (sample_params 0%nat) 2 5 7 (full [2; 3; 5; 7]%nat 0));
    [lia | lia | reflexivity | lia | lia | lia].
Defined.

(** ** The generator for any kernel size and any latent size *)

Lemma deconv_out_first ks : deconv_out 1 ks 1 0 = Some ks.
Proof.
  unfold deconv_out. cbn [Nat.leb andb Nat.sub Nat.mul Nat.add].
  now rewrite Nat.sub_0_r.
Qed.

Lemma deconv_out_up ks h :
  (2 <= ks)%nat -> (2 <= h)%nat ->
  deconv_out h ks 2 1 = Some (2 * h + ks - 4)%nat.
Proof.
  intros Hk Hh. unfold deconv_out.
  replace (1 <=? 2)%nat with true by reflexivity.
  replace (1 <=? h)%nat with true by (symmetry; apply Nat.leb_le; lia).
  replace (2 * 1 <=? (h - 1) * 2 + ks)%nat with true
    by (symmetry; apply Nat.leb_le; lia).
  cbn [andb]. f_equal. lia.
Qed.

Lemma up_block_shape tr cin cout ks bn th n h :
  (1 <= cin)%nat -> (1 <= cout)%nat ->
  (2 <= ks)%nat -> (2 <= h)%nat ->
  out_shape tr (DeconvBlock cin cout ks 2 1 bn th) [n; cin; h; h]
  = Some [n; cout; 2 * h + ks - 4; 2 * h + ks - 4]%nat.
Proof.
  intros Hi Ho Hk Hh.
  apply deconv_block_shape; try (apply deconv_out_up; assumption).
  - apply batch_not_single; lia.
  - apply weightless_false; lia.
Qed.

Lemma first_block_shape tr nz cout ks bn th n :
  (1 <= nz)%nat -> (1 <= cout)%nat ->
  (2 <= ks)%nat ->
  out_shape tr (DeconvBlock nz cout ks 1 0 bn th) [n; nz; 1; 1]
  = Some [n; cout; ks; ks]%nat.
Proof.
  intros Hi Ho Hk.
  apply deconv_block_shape; try apply deconv_out_first.
  - apply batch_not_single; lia.
  - apply weightless_false; lia.
Qed.

Lemma last_stage_shape ks cin cout n h :
  (1 <= cin)%nat -> (1 <= cout)%nat ->
  (2 <= ks)%nat -> (2 <= h)%nat ->
  conv_shape deconv_out cin cout ks 2 1 [n; cin; h; h]
  = Some [n; cout; 2 * h + ks - 4; 2 * h + ks - 4]%nat.
Proof.
  intros Hi Ho Hk Hh. unfold conv_shape.
  rewrite (@weightless_false cin cout ks) by lia.
  now rewrite Nat.eqb_refl, deconv_out_up by assumption.
Qed.

Lemma generator_small_kernel_raises tr im ks nz ngf nc ngpu th N :
  (ks < 2)%nat ->
  out_shape tr (Generator_pipeline (Generator.new im ks nz ngf nc ngpu th))
            [N; nz; 1; 1]
  = None.
Proof.
  intros Hk. unfold Generator_pipeline, Generator.new.
  cbn [Generator.im_size Generator.main64 Generator.main128].
  assert (E : forall cout cout' th1 th2 rest,
             run_shapes (out_shape tr)
               (DeconvBlock nz cout ks 1 0 true th1
                :: DeconvBlock cout cout' ks 2 1 true th2 :: rest)
               [N; nz; 1; 1]%nat = None).
  { intros cout cout' th1 th2 rest. cbn [run_shapes].
    rewrite !DeconvBlock_shape_spatial, Nat.eqb_refl.
    destruct ks as [|[|k]]; [now rewrite weightless_no_kernel| |lia].
    destruct (weightless nz cout 1); [reflexivity|].
    unfold block_spatial at 1. rewrite deconv_out_first.
    cbn [andb]. destruct (tr && (N * 1 * 1 =? 1)%nat); [reflexivity|].
    unfold with_channels. cbn [option_map fst snd].
    rewrite DeconvBlock_shape_spatial, Nat.eqb_refl.
    destruct (weightless cout cout' 1); reflexivity. }
  destruct (im =? 64)%Z; cbn [out_shape]; apply E.
Qed.

Lemma generator_main64_any_kernel tr im ks nz ngf nc ngpu th N :
  (1 <= nz)%nat -> (1 <= ngf)%nat -> (1 <= nc)%nat ->
  (2 <= ks)%nat ->
  out_shape tr (Generator.main64 (Generator.new im ks nz ngf nc ngpu th))
            [N; nz; 1; 1]
  = Some [N; nc; 31 * ks - 60; 31 * ks - 60]%nat.
Proof.
  intros Hz Hf Hc Hk. unfold Generator.new.
  cbn [Generator.main64 out_shape run_shapes].
  rewrite first_block_shape by lia.
  do 3 (rewrite up_block_shape by lia).
  rewrite last_stage_shape by lia.
  do 4 f_equal; [|f_equal]; lia.
Qed.

Lemma generator_main128_any_kernel tr im ks nz ngf nc ngpu th N :
  (1 <= nz)%nat -> (1 <= ngf)%nat -> (1 <= nc)%nat ->
  (2 <= ks)%nat ->
  out_shape tr (Generator.main128 (Generator.new im ks nz ngf nc ngpu th))
            [N; nz; 1; 1]
  = Some [N; nc; 63 * ks - 124; 63 * ks - 124]%nat.
Proof.
  intros Hz Hf Hc Hk. unfold Generator.new.
  cbn [Generator.main128 out_shape run_shapes].
  rewrite first_block_shape by lia.
  do 4 (rewrite up_block_shape by lia).
  rewrite last_stage_shape by lia.
  do 4 f_equal; [|f_equal]; lia.
Qed.

(** With a latent size, a base width and an image channel count of at
    least 1, on a latent batch [N x nz x 1 x 1] the generator built for
    resolution 64 with kernel size [ks] raises when [ks < 2] and
    otherwise returns an image batch of side [31 ks - 60]; the one built
    for resolution 128 returns side [63 ks - 124].  The sides are 64
    and 128 for [ks = 4] only. *)
Theorem generator_resolution_by_kernel_size :
  forall (ks nz ngf nc : nat) (ngpu : Z) (th : nat -> layer_params)
         (mode : bool) (N : nat) (x : tensor),
    (1 <= nz)%nat -> (1 <= ngf)%nat -> (1 <= nc)%nat ->
    dims x = [N; nz; 1; 1]%nat ->
    option_map dims
      (fst (Generator.forward
              (Generator.train mode (Generator.new 64 ks nz ngf nc ngpu th))
              x))
    = (if (2 <=? ks)%nat
       then Some [N; nc; 31 * ks - 60; 31 * ks - 60]%nat else None)
    /\ option_map dims
         (fst (Generator.forward
                 (Generator.train mode
                    (Generator.new 128 ks nz ngf nc ngpu th))
                 x))
       = (if (2 <=? ks)%nat
          then Some [N; nc; 63 * ks - 124; 63 * ks - 124]%nat else None)
    /\ ((31 * ks - 60 = 64)%nat <-> ks = 4%nat)
    /\ ((63 * ks - 124 = 128)%nat <-> ks = 4%nat).
Proof.
  intros ks nz ngf nc ngpu th mode N x Hz Hf Hc Hx.
  rewrite !Generator_forward_fst, !forward_dims, Hx.
  split; [|split; [|split; lia]].
  - destruct (2 <=? ks)%nat eqn:E.
    + apply Nat.leb_le in E.
      apply (@generator_main64_any_kernel mode 64 ks nz ngf nc ngpu th N
                                          Hz Hf Hc E).
    + apply Nat.leb_gt in E.
      apply (@generator_small_kernel_raises mode 64 ks nz ngf nc ngpu th N E).
  - destruct (2 <=? ks)%nat eqn:E.
    + apply Nat.leb_le in E.
      apply (@generator_main128_any_kernel mode 128 ks nz ngf nc ngpu th N
                                           Hz Hf Hc E).
    + apply Nat.leb_gt in E.
      apply (@generator_small_kernel_raises mode 128 ks nz ngf nc ngpu th N
                                            E).
Qed.

Lemma generator_resolution_by_kernel_size_witness :
  option_map dims
    (fst (Generator.forward
            (Generator.train true (Generator.new 64 5 2 1 3 1 sample_params))
            (full [3; 2; 1; 1]%nat 0)))
  = Some [3; 3; 95; 95]%nat.
Proof.
  exact (proj1 (@generator_resolution_by_kernel_size
                  5 2 1 3 1 sample_params true 3
                  (full [3; 2; 1; 1]%nat 0)
                  (le_S 1 1 (le_n 1)) (le_n 1)
                  (le_S 1 2 (le_S 1 1 (le_n 1))) eq_refl)).
Defined.

Lemma deconv_out_4_1_0 h :
  (1 <= h)%nat -> deconv_out h 4 1 0 = Some (h + 3)%nat.
Proof.
  intros Hh. unfold deconv_out.
  replace (1 <=? 1)%nat with true by reflexivity.
  replace (1 <=? h)%nat with true by (symmetry; apply Nat.leb_le; lia).
  replace (2 * 0 <=? (h - 1) * 1 + 4)%nat with true
    by (symmetry; apply Nat.leb_le; lia).
  cbn [andb]. f_equal. lia.
Qed.

Lemma doubling_block_shape tr cin cout bn th n h w :
  (1 <= cin)%nat -> (1 <= cout)%nat ->
  (1 <= h)%nat -> (1 <= w)%nat ->
  out_shape tr (DeconvBlock cin cout 4 2 1 bn th) [n; cin; h; w]
  = Some [n; cout; 2 * h; 2 * w]%nat.
Proof.
  intros Hi Ho Hh Hw.
  apply deconv_block_shape; try (apply deconv_out_doubles; assumption).
  - apply batch_not_single; lia.
  - apply weightless_false; lia.
Qed.

Lemma generator_any_latent_shape tr im nz ngf nc ngpu th N h w :
  (1 <= nz)%nat -> (1 <= ngf)%nat -> (1 <= nc)%nat ->
  (1 <= h)%nat -> (1 <= w)%nat ->
  out_shape tr (Generator.main64 (Generator.new im 4 nz ngf nc ngpu th))
            [N; nz; h; w]
  = Some [N; nc; 16 * (h + 3); 16 * (w + 3)]%nat
  /\ out_shape tr (Generator.main128 (Generator.new im 4 nz ngf nc ngpu th))
               [N; nz; h; w]
     = Some [N; nc; 32 * (h + 3); 32 * (w + 3)]%nat.
Proof.
  intros Hz Hf Hc Hh Hw. unfold Generator.new.
  cbn [Generator.main64 Generator.main128 out_shape run_shapes].
  assert (F : forall cout t,
             (1 <= cout)%nat ->
             out_shape tr (DeconvBlock nz cout 4 1 0 true t) [N; nz; h; w]
             = Some [N; cout; h + 3; w + 3]%nat).
  { intros cout t Ho.
    apply deconv_block_shape; try (apply deconv_out_4_1_0; assumption).
    - apply batch_not_single; lia.
    - apply weightless_false; lia. }
  rewrite !F by lia. split.
  - do 3 (rewrite doubling_block_shape by lia).
    unfold conv_shape. rewrite (@weightless_false ngf nc 4) by lia.
    rewrite Nat.eqb_refl, !deconv_out_doubles by lia.
    do 4 f_equal; [|f_equal]; lia.
  - do 4 (rewrite doubling_block_shape by lia).
    unfold conv_shape. rewrite (@weightless_false ngf nc 4) by lia.
    rewrite Nat.eqb_refl, !deconv_out_doubles by lia.
    do 4 f_equal; [|f_equal]; lia.
Qed.

(** With kernel size 4 and a latent size, a base width and an image
    channel count of at least 1, the generator accepts a latent of any
    spatial size: a batch [N x nz x h x w] becomes an image batch of
    height [16 (h + 3)] and width [16 (w + 3)] at resolution 64, and of
    height [32 (h + 3)] and width [32 (w + 3)] at resolution 128. *)
Theorem generator_any_latent_size :
  forall (nz ngf nc : nat) (ngpu : Z) (th : nat -> layer_params)
         (mode : bool) (N h w : nat) (x : tensor),
    (1 <= nz)%nat -> (1 <= ngf)%nat -> (1 <= nc)%nat ->
    dims x = [N; nz; h; w] -> (1 <= h)%nat -> (1 <= w)%nat ->
    option_map dims
      (fst (Generator.forward
              (Generator.train mode (Generator.new 64 4 nz ngf nc ngpu th))
              x))
    = Some [N; nc; 16 * (h + 3); 16 * (w + 3)]%nat
    /\ option_map dims
         (fst (Generator.forward
                 (Generator.train mode
                    (Generator.new 128 4 nz ngf nc ngpu th))
                 x))
       = Some [N; nc; 32 * (h + 3); 32 * (w + 3)]%nat.
Proof.
  intros nz ngf nc ngpu th mode N h w x Hz Hf Hc Hx Hh Hw.
  rewrite !Generator_forward_fst, !forward_dims, Hx. split.
  - apply (@generator_any_latent_shape mode 64 nz ngf nc ngpu th N h w
                                       Hz Hf Hc Hh Hw).
  - apply (@generator_any_latent_shape mode 128 nz ngf nc ngpu th N h w
                                       Hz Hf Hc Hh Hw).
Qed.

Lemma generator_any_latent_size_witness :
  option_map dims
    (fst (Generator.forward
            (Generator.train true (Generator.new 64 4 2 1 3 1 sample_params))
            (full [1; 2; 2; 3]%nat 0)))
  = Some [1; 3; 16 * (2 + 3); 16 * (3 + 3)]%nat.
Proof.
  apply (@generator_any_latent_size 2 1 3 1 sample_params true 1 2 3
           (full [1; 2; 2; 3]%nat 0));
    [lia | lia | lia | reflexivity | lia | lia].
Defined.

(** ** Inputs of the wrong shape *)

Lemma conv_transpose2d_forward_refuses cin cout k s p wt x :
  (forall n h w, dims x <> [n; cin; h; w]) ->
  conv_transpose2d_forward cin cout k s p wt x = None.
Proof.
  intros H. unfold conv_transpose2d_forward.
  destruct (dims x) as [|n [|c [|h [|w [|? ?]]]]]; try reflexivity.
  destruct (weightless cin cout k); [reflexivity|].
  destruct (c =? cin)%nat eqn:E; [|reflexivity].
  apply Nat.eqb_eq in E. subst c. now destruct (H n h w).
Qed.

Lemma conv2d_forward_refuses cin cout k s p wt x :
  (forall n h w, dims x <> [n; cin; h; w]) ->
  conv2d_forward cin cout k s p wt x = None.
Proof.
  intros H. unfold conv2d_forward.
  destruct (dims x) as [|n [|c [|h [|w [|? ?]]]]]; try reflexivity.
  destruct (weightless cin cout k); [reflexivity|].
  destruct (c =? cin)%nat eqn:E; [|reflexivity].
  apply Nat.eqb_eq in E. subst c. now destruct (H n h w).
Qed.

(** A batch that is not of the form [n x nz x h x w] (for the
    generator) or [n x nc x h x w] (for the discriminator) is refused
    before any buffer is written, in either mode and for every
    configuration: [forward] raises and the instance is left as it
    was. *)
Theorem forward_refuses_wrong_channels :
  forall (im : Z) (ks nz ngf ndf nc : nat) (ngpu : Z)
         (th : nat -> layer_params) (mode : bool) (x : tensor),
    ((forall n h w, dims x <> [n; nz; h; w]) ->
     let g := Generator.train mode (Generator.new im ks nz ngf nc ngpu th) in
     Generator.forward g x = (None, g))
    /\ ((forall n h w, dims x <> [n; nc; h; w]) ->
        exists d,
          Discriminator.new im ks ndf nc ngpu th = Some d
          /\ Discriminator.forward (Discriminator.train mode d) x
             = (None, Discriminator.train mode d)).
Proof.
  intros im ks nz ngf ndf nc ngpu th mode x. split.
  - intros H g. subst g.
    unfold Generator.forward, Generator.train, Generator.new, DeconvBlock.
    cbn [Generator.im_size Generator.main64 Generator.main128
         Generator.training Generator.ngpu].
    destruct (im =? 64)%Z; cbn [forward run_layers];
      rewrite conv_transpose2d_forward_refuses by exact H; reflexivity.
  - intros H. eexists. split; [reflexivity|].
    unfold Discriminator.forward, Discriminator.train.
    cbn [Discriminator.im_size Discriminator.main64 Discriminator.main128
         Discriminator.training Discriminator.ngpu].
    destruct (im =? 64)%Z; cbn [forward run_layers];
      rewrite conv2d_forward_refuses by exact H; reflexivity.
Qed.

Lemma forward_refuses_wrong_channels_witness :
  let g := Generator.train true (Generator.new 64 4 100 64 3 1 sample_params) in
  Generator.forward g (full [8; 100]%nat 0) = (None, g).
Proof.
  apply (proj1 (@forward_refuses_wrong_channels
                  64 4 100 64 64 3 1 sample_params true
                  (full [8; 100]%nat 0))).
  intros n h w. cbn. discriminate.
Defined.

(** ** What every result looks like *)

(** One stage of a pipeline whose result is known to be a shape. *)
Ltac chain_step :=
  rewrite ?DeconvBlock_shape_spatial, ?conv_norm_shape_spatial,
          ?conv_leaky_shape_spatial, ?out_shape_Conv2d,
          ?out_shape_ConvTranspose2d, ?conv_shape_spatial;
  try match goal with
      | |- context [weightless ?a ?b ?c] =>
          destruct (weightless a b c); [intros; discriminate|]
      end;
  rewrite ?Nat.eqb_refl;
  match goal with
  | |- context [block_spatial ?o ?nm ?tr ?k ?s ?p ?n ?h ?w] =>
      destruct (block_spatial o nm tr k s p n h w) as [[? ?]|];
      unfold with_channels;
      cbn [option_map fst snd run_shapes]; [|intros; discriminate]
  end.

Lemma generator_pipeline_shape_form tr im ks nz ngf nc ngpu th sh sh' :
  out_shape tr (Generator_pipeline (Generator.new im ks nz ngf nc ngpu th)) sh
  = Some sh' ->
  exists n h w h' w', sh = [n; nz; h; w] /\ sh' = [n; nc; h'; w'].
Proof.
  unfold Generator_pipeline, Generator.new.
  cbn [Generator.im_size Generator.main64 Generator.main128].
  destruct sh as [|n [|c [|h [|w [|? ?]]]]];
    try (destruct (im =? 64)%Z; intros; discriminate).
  destruct (im =? 64)%Z; rewrite out_shape_sequential; cbn [run_shapes];
    rewrite !DeconvBlock_shape_spatial;
    (destruct (weightless _ _ _); [intros; discriminate|]);
    (destruct (c =? nz)%nat eqn:E; [|intros; discriminate]);
    apply Nat.eqb_eq in E; subst c.
  - do 5 chain_step. cbn [out_shape]. intros H. inversion H.
    now eexists _, _, _, _, _.
  - do 6 chain_step. cbn [out_shape]. intros H. inversion H.
    now eexists _, _, _, _, _.
Qed.

(** Whatever the configuration, the mode and the input, a result of
    [Generator.forward] has the batch size of its input, [nc] channels
    and entries in [-1, 1], and the input had [nz] channels. *)
Theorem generator_result_form :
  forall (im : Z) (ks nz ngf nc : nat) (ngpu : Z)
         (th : nat -> layer_params) (mode : bool) (x y : tensor),
    fst (Generator.forward
           (Generator.train mode (Generator.new im ks nz ngf nc ngpu th)) x)
    = Some y ->
    (exists n h w h' w',
        dims x = [n; nz; h; w] /\ dims y = [n; nc; h'; w'])
    /\ bounded (-1) 1 y.
Proof.
  intros im ks nz ngf nc ngpu th mode x y H. split.
  - pose proof H as H'.
    rewrite Generator_forward_fst in H'.
    apply (f_equal (option_map dims)) in H'. rewrite forward_dims in H'.
    cbn [option_map Generator.training Generator.train] in H'.
    apply (generator_pipeline_shape_form mode im ks nz ngf nc ngpu th).
    exact H'.
  - apply generator_pipeline_bounded
      with (g := Generator.train mode (Generator.new im ks nz ngf nc ngpu th))
           (x := x); [apply generator_pipeline_ends_tanh|exact H].
Qed.

Lemma generator_result_form_witness :
  exists y,
    fst (Generator.forward
           (Generator.train true (Generator.new 64 3 1 1 2 1 sample_params))
           (full [1; 1; 1; 1]%nat 0))
    = Some y
    /\ (exists n h w h' w',
           dims (full [1; 1; 1; 1]%nat 0) = [n; 1; h; w]%nat
           /\ dims y = [n; 2; h'; w']%nat)
    /\ bounded (-1) 1 y.
Proof.
  destruct (fst (Generator.forward
                   (Generator.train true
                      (Generator.new 64 3 1 1 2 1 sample_params))
                   (full [1; 1; 1; 1]%nat 0))) as [y|] eqn:E.
  - exists y. split; [reflexivity|].
    exact (@generator_result_form 64 3 1 1 2 1 sample_params true
             (full [1; 1; 1; 1]%nat 0) y E).
  - apply (f_equal (option_map dims)) in E. vm_compute in E. discriminate.
Defined.

Lemma discriminator_pipeline_shape_form im ks ndf nc ngpu th :
  exists d,
    Discriminator.new im ks ndf nc ngpu th = Some d
    /\ forall tr sh sh',
         out_shape tr (Discriminator_pipeline d) sh = Some sh' ->
         exists n h w h' w', sh = [n; nc; h; w] /\ sh' = [n; 1; h'; w']%nat.
Proof.
  eexists. split; [reflexivity|].
  intros tr sh sh'. unfold Discriminator_pipeline.
  cbn [Discriminator.im_size Discriminator.main64 Discriminator.main128].
  destruct sh as [|n [|c [|h [|w [|? ?]]]]];
    try (destruct (im =? 64)%Z; intros; discriminate).
  destruct (im =? 64)%Z; rewrite out_shape_sequential; cbn [run_shapes];
    rewrite !conv_leaky_shape_spatial;
    (destruct (weightless _ _ _); [intros; discriminate|]);
    (destruct (c =? nc)%nat eqn:E; [|intros; discriminate]);
    apply Nat.eqb_eq in E; subst c.
  - do 5 chain_step. intros H. inversion H. now eexists _, _, _, _, _.
  - do 6 chain_step. intros H. inversion H. now eexists _, _, _, _, _.
Qed.

Lemma score_some_single r y :
  Discriminator.score r = Some y ->
  forall n c h w m,
    r = Some m -> dims m = [n; c; h; w] ->
    dims y = [1]%nat /\ (c * (h * w) = 1)%nat.
Proof.
  intros H n c h w m Hr Hm. subst r.
  unfold Discriminator.score, bind, view, mean0 in H. rewrite Hm in H.
  cbn [dims numel fold_right] in H.
  destruct (c * (h * (w * 1)) =? 1 * 1)%nat eqn:E; [|discriminate].
  inversion H. cbn [dims]. split; [reflexivity|].
  apply Nat.eqb_eq in E. lia.
Qed.

(** Whatever the configuration, the mode and the input, a result of
    [Discriminator.forward] has shape [1]; the input had [nc] channels,
    the pipeline ended in a map [n x 1 x 1 x 1], and the entry of the
    result is the average of that map over the batch. *)
Theorem discriminator_result_form :
  forall (im : Z) (ks ndf nc : nat) (ngpu : Z) (th : nat -> layer_params),
  exists d,
    Discriminator.new im ks ndf nc ngpu th = Some d
    /\ forall (mode : bool) (x y : tensor),
         fst (Discriminator.forward (Discriminator.train mode d) x) = Some y ->
         dims y = [1]%nat
         /\ exists m n h w,
              dims x = [n; nc; h; w]
              /\ fst (forward mode (Discriminator_pipeline d) x) = Some m
              /\ dims m = [n; 1; 1; 1]%nat
              /\ data y [0]%nat = batch_mean m n 1 1 0.
Proof.
  intros im ks ndf nc ngpu th.
  destruct (discriminator_pipeline_shape_form im ks ndf nc ngpu th)
    as [d [Hd Hform]].
  exists d. split; [exact Hd|].
  intros mode x y H.
  rewrite Discriminator_forward_fst in H.
  assert (P : Discriminator_pipeline (Discriminator.train mode d)
              = Discriminator_pipeline d) by reflexivity.
  rewrite P in H. cbn [Discriminator.training Discriminator.train] in H.
  destruct (fst (forward mode (Discriminator_pipeline d) x)) as [m|] eqn:Em;
    [|discriminate].
  pose proof (forward_dims mode (Discriminator_pipeline d) x) as Hs.
  rewrite Em in Hs. cbn [option_map] in Hs. symmetry in Hs.
  destruct (Hform mode _ _ Hs) as [n [h [w [h' [w' [Hx Hm]]]]]].
  destruct (@score_some_single (Some m) y H n 1%nat h' w' m eq_refl Hm)
    as [Hy Hone].
  assert (h' = 1 /\ w' = 1)%nat as [-> ->].
  { rewrite Nat.mul_1_l in Hone. apply Nat.eq_mul_1 in Hone. exact Hone. }
  split; [exact Hy|].
  exists m, n, h, w. split; [exact Hx|]. split; [reflexivity|].
  split; [exact Hm|].
  destruct (score_of_single_map m Hm) as [y' [Hy' [_ Hv]]].
  rewrite Hy' in H. inversion H. subst y'. exact Hv.
Qed.

Lemma discriminator_result_form_witness :
  exists d y,
    Discriminator.new 64 4 1 3 1 sample_params = Some d
    /\ fst (Discriminator.forward (Discriminator.train false d)
                                  (full [2; 3; 70; 64]%nat 0))
       = Some y
    /\ dims y = [1]%nat.
Proof.
  destruct (discriminator_result_form 64 4 1 3 1 sample_params)
    as [d [Hd H]].
  destruct (fst (Discriminator.forward (Discriminator.train false d)
                   (full [2; 3; 70; 64]%nat 0))) as [y|] eqn:E.
  - exists d, y. split; [exact Hd|]. split; [exact E|].
    exact (proj1 (H false _ y E)).
  - exfalso. inversion Hd. subst d.
    apply (f_equal (option_map dims)) in E. vm_compute in E. discriminate.
Defined.

(** ** The images a discriminator accepts *)

(** From here on [lia] also reasons about division by a constant. *)
Ltac Zify.zify_post_hook ::= Z.to_euclidean_division_equations.

Lemma halving_spatial_some norm tr n h w a b :
  block_spatial conv_out norm tr 4 2 1 n h w = Some (a, b) ->
  (2 <= h /\ 2 <= w /\ a = h / 2 /\ b = w / 2)%nat.
Proof.
  unfold block_spatial, conv_out.
  replace (1 <=? 2)%nat with true by reflexivity. cbn [andb].
  destruct (Nat.leb_spec 4 (h + 2 * 1)); [|discriminate].
  destruct (Nat.leb_spec 4 (w + 2 * 1)); [|discriminate].
  destruct (norm && tr && _); [discriminate|].
  remember ((h + 2 * 1 - 4) / 2)%nat as qa eqn:Hqa.
  remember ((w + 2 * 1 - 4) / 2)%nat as qb eqn:Hqb.
  intros E. injection E as Ea Eb. lia.
Qed.

Lemma halving_spatial_ok norm tr n h w :
  (4 <= h)%nat -> (4 <= w)%nat ->
  block_spatial conv_out norm tr 4 2 1 n h w = Some (h / 2, w / 2)%nat.
Proof.
  intros Hh Hw. unfold block_spatial, conv_out.
  replace (1 <=? 2)%nat with true by reflexivity. cbn [andb].
  destruct (Nat.leb_spec 4 (h + 2 * 1)); [|lia].
  destruct (Nat.leb_spec 4 (w + 2 * 1)); [|lia].
  rewrite batch_not_single by lia.
  rewrite Bool.andb_false_r. f_equal. f_equal; lia.
Qed.

Lemma final_spatial_some n h w a b :
  block_spatial conv_out false false 4 1 0 n h w = Some (a, b) ->
  (4 <= h /\ 4 <= w /\ a = h - 3 /\ b = w - 3)%nat.
Proof.
  unfold block_spatial, conv_out.
  replace (1 <=? 1)%nat with true by reflexivity. cbn [andb].
  destruct (Nat.leb_spec 4 (h + 2 * 0)); [|discriminate].
  destruct (Nat.leb_spec 4 (w + 2 * 0)); [|discriminate].
  rewrite !Nat.div_1_r. intros E. injection E as Ea Eb. lia.
Qed.

Lemma final_spatial_ok n h w :
  (4 <= h)%nat -> (4 <= w)%nat ->
  block_spatial conv_out false false 4 1 0 n h w = Some (h - 3, w - 3)%nat.
Proof.
  intros Hh Hw. unfold block_spatial, conv_out.
  replace (1 <=? 1)%nat with true by reflexivity. cbn [andb].
  destruct (Nat.leb_spec 4 (h + 2 * 0)); [|lia].
  destruct (Nat.leb_spec 4 (w + 2 * 0)); [|lia].
  rewrite !Nat.div_1_r. cbn [andb]. f_equal. f_equal; lia.
Qed.

(** One halving stage of a pipeline that is known to succeed. *)
Ltac halving_step :=
  rewrite ?conv_norm_shape_spatial, ?conv_leaky_shape_spatial,
          ?out_shape_Conv2d, ?conv_shape_spatial;
  try match goal with
      | |- context [weightless ?a ?b ?c] =>
          destruct (weightless a b c); [intros; discriminate|]
      end;
  rewrite ?Nat.eqb_refl;
  match goal with
  | |- context [block_spatial ?o ?nm ?tr ?k ?s ?p ?n ?h ?w] =>
      let E := fresh "E" in
      destruct (block_spatial o nm tr k s p n h w) as [[? ?]|] eqn:E;
      unfold with_channels;
      cbn [option_map fst snd run_shapes]; [|intros; discriminate];
      first [ apply halving_spatial_some in E
            | apply final_spatial_some in E ];
      destruct E as [? [? [? ?]]]; subst
  end.

Lemma discriminator_4_shapes im ndf nc ngpu th :
  (1 <= ndf)%nat -> (1 <= nc)%nat ->
  exists d,
    Discriminator.new im 4 ndf nc ngpu th = Some d
    /\ Discriminator.im_size d = im
    /\ (forall tr n h w sh',
           out_shape tr (Discriminator.main64 d) [n; nc; h; w] = Some sh' ->
           (64 <= h /\ 64 <= w)%nat
           /\ sh' = [n; 1; h / 16 - 3; w / 16 - 3]%nat)
    /\ (forall tr n h w sh',
           out_shape tr (Discriminator.main128 d) [n; nc; h; w] = Some sh' ->
           (128 <= h /\ 128 <= w)%nat
           /\ sh' = [n; 1; h / 32 - 3; w / 32 - 3]%nat)
    /\ (forall tr n h w,
           (64 <= h)%nat -> (64 <= w)%nat ->
           out_shape tr (Discriminator.main64 d) [n; nc; h; w]
           = Some [n; 1; h / 16 - 3; w / 16 - 3]%nat)
    /\ (forall tr n h w,
           (128 <= h)%nat -> (128 <= w)%nat ->
           out_shape tr (Discriminator.main128 d) [n; nc; h; w]
           = Some [n; 1; h / 32 - 3; w / 32 - 3]%nat).
Proof.
  intros Hndf Hnc.
  eexists. split; [reflexivity|]. split; [reflexivity|].
  cbn [Discriminator.main64 Discriminator.main128].
  split; [|split; [|split]].
  - intros tr n h w sh'. rewrite out_shape_sequential; cbn [run_shapes].
    do 5 halving_step. intros E.
    match type of E with Some ?l = _ => replace sh' with l by congruence end.
    clear E. split; [lia|]. do 3 f_equal; [|f_equal]; lia.
  - intros tr n h w sh'. rewrite out_shape_sequential; cbn [run_shapes].
    do 6 halving_step. intros E.
    match type of E with Some ?l = _ => replace sh' with l by congruence end.
    clear E. split; [lia|]. do 3 f_equal; [|f_equal]; lia.
  - intros tr n h w Hh Hw. rewrite out_shape_sequential; cbn [run_shapes].
    rewrite conv_leaky_shape_spatial, weightless_false, Nat.eqb_refl,
            halving_spatial_ok by lia.
    unfold with_channels; cbn [option_map fst snd].
    do 3 (rewrite conv_norm_shape_spatial, weightless_false, Nat.eqb_refl,
                  halving_spatial_ok by lia;
          unfold with_channels; cbn [option_map fst snd]).
    rewrite out_shape_Conv2d, conv_shape_spatial, weightless_false,
            Nat.eqb_refl, final_spatial_ok by lia.
    unfold with_channels; cbn [option_map fst snd].
    do 4 f_equal; [|f_equal]; lia.
  - intros tr n h w Hh Hw. rewrite out_shape_sequential; cbn [run_shapes].
    rewrite conv_leaky_shape_spatial, weightless_false, Nat.eqb_refl,
            halving_spatial_ok by lia.
    unfold with_channels; cbn [option_map fst snd].
    do 4 (rewrite conv_norm_shape_spatial, weightless_false, Nat.eqb_refl,
                  halving_spatial_ok by lia;
          unfold with_channels; cbn [option_map fst snd]).
    rewrite out_shape_Conv2d, conv_shape_spatial, weightless_false,
            Nat.eqb_refl, final_spatial_ok by lia.
    unfold with_channels; cbn [option_map fst snd].
    do 4 f_equal; [|f_equal]; lia.
Qed.

Lemma score_defined_iff m n h w :
  dims m = [n; 1; h; w]%nat ->
  (exists y, Discriminator.score (Some m) = Some y) <-> (h = 1 /\ w = 1)%nat.
Proof.
  intros Hm. split.
  - intros [y Hy].
    destruct (@score_some_single (Some m) y Hy n 1%nat h w m eq_refl Hm)
      as [_ Hone].
    rewrite Nat.mul_1_l in Hone. now apply Nat.eq_mul_1 in Hone.
  - intros [-> ->]. destruct (score_of_single_map m Hm) as [y [Hy _]].
    now exists y.
Qed.

Lemma discriminator_pipeline_64 mode d :
  Discriminator.im_size d = 64%Z ->
  Discriminator_pipeline (Discriminator.train mode d)
  = Discriminator.main64 d.
Proof.
  intros E. unfold Discriminator_pipeline, Discriminator.train.
  cbn [Discriminator.im_size Discriminator.main64]. now rewrite E.
Qed.

Lemma discriminator_pipeline_128 mode d :
  Discriminator.im_size d = 128%Z ->
  Discriminator_pipeline (Discriminator.train mode d)
  = Discriminator.main128 d.
Proof.
  intros E. unfold Discriminator_pipeline, Discriminator.train.
  cbn [Discriminator.im_size Discriminator.main128]. now rewrite E.
Qed.

(** With kernel size 4, a base width and an image channel count of at
    least 1, a discriminator built for resolution 64 returns a score
    exactly on the batches [n x nc x h x w] with [64 <= h, w <= 79], and
    one built for resolution 128 exactly on those with
    [128 <= h, w <= 159]; on every other input [forward] raises. *)
Theorem discriminator_accepted_sizes :
  forall (ndf nc : nat) (ngpu : Z) (th : nat -> layer_params),
    (1 <= ndf)%nat -> (1 <= nc)%nat ->
    (exists d,
        Discriminator.new 64 4 ndf nc ngpu th = Some d
        /\ forall (mode : bool) (x : tensor),
             (exists y,
                 fst (Discriminator.forward (Discriminator.train mode d) x)
                 = Some y)
             <-> (exists n h w,
                     dims x = [n; nc; h; w]
                     /\ (64 <= h < 80)%nat /\ (64 <= w < 80)%nat))
    /\ (exists d,
           Discriminator.new 128 4 ndf nc ngpu th = Some d
           /\ forall (mode : bool) (x : tensor),
                (exists y,
                    fst (Discriminator.forward (Discriminator.train mode d) x)
                    = Some y)
                <-> (exists n h w,
                        dims x = [n; nc; h; w]
                        /\ (128 <= h < 160)%nat /\ (128 <= w < 160)%nat)).
Proof.
  intros ndf nc ngpu th Hndf Hnc. split.
  - destruct (@discriminator_4_shapes 64 ndf nc ngpu th Hndf Hnc)
      as [d [Hd [Him [Hinv [_ [Hok _]]]]]].
    destruct (discriminator_pipeline_shape_form 64 4 ndf nc ngpu th)
      as [d' [Hd' Hform]].
    assert (d' = d) by congruence. subst d'.
    exists d. split; [exact Hd|]. intros mode x.
    rewrite Discriminator_forward_fst.
    cbn [Discriminator.training Discriminator.train].
    pose proof (forward_dims mode (Discriminator_pipeline d) x) as Hs.
    pose proof (discriminator_pipeline_64 mode d Him) as P.
    rewrite P.
    assert (Q : Discriminator_pipeline d = Discriminator.main64 d)
      by (unfold Discriminator_pipeline; now rewrite Him).
    rewrite Q in Hs, Hform.
    destruct (fst (forward mode (Discriminator.main64 d) x)) as [m|] eqn:Em;
      cbn [option_map] in Hs; symmetry in Hs.
    + destruct (Hform mode _ _ Hs) as [n [h [w [h' [w' [Hx Hm]]]]]].
      rewrite Hx in Hs.
      destruct (Hinv mode _ _ _ _ Hs) as [[Hh Hw] Hsh].
      rewrite Hm in Hsh.
      assert (h' = h / 16 - 3 /\ w' = w / 16 - 3)%nat as [Eh Ew]
        by (split; congruence).
      rewrite (score_defined_iff m Hm). split.
      * intros [E1 E2]. exists n, h, w. split; [exact Hx|]. lia.
      * intros [n0 [h0 [w0 [Hx0 [Hh0 Hw0]]]]].
        rewrite Hx in Hx0.
        assert (h = h0 /\ w = w0) as [<- <-] by (split; congruence).
        lia.
    + split; [intros [y Hy]; discriminate|].
      intros [n [h [w [Hx [Hh Hw]]]]]. rewrite Hx in Hs.
      rewrite Hok in Hs by lia. discriminate.
  - destruct (@discriminator_4_shapes 128 ndf nc ngpu th Hndf Hnc)
      as [d [Hd [Him [_ [Hinv [_ Hok]]]]]].
    destruct (discriminator_pipeline_shape_form 128 4 ndf nc ngpu th)
      as [d' [Hd' Hform]].
    assert (d' = d) by congruence. subst d'.
    exists d. split; [exact Hd|]. intros mode x.
    rewrite Discriminator_forward_fst.
    cbn [Discriminator.training Discriminator.train].
    pose proof (forward_dims mode (Discriminator_pipeline d) x) as Hs.
    pose proof (discriminator_pipeline_128 mode d Him) as P.
    rewrite P.
    assert (Q : Discriminator_pipeline d = Discriminator.main128 d)
      by (unfold Discriminator_pipeline; now rewrite Him).
    rewrite Q in Hs, Hform.
    destruct (fst (forward mode (Discriminator.main128 d) x)) as [m|] eqn:Em;
      cbn [option_map] in Hs; symmetry in Hs.
    + destruct (Hform mode _ _ Hs) as [n [h [w [h' [w' [Hx Hm]]]]]].
      rewrite Hx in Hs.
      destruct (Hinv mode _ _ _ _ Hs) as [[Hh Hw] Hsh].
      rewrite Hm in Hsh.
      assert (h' = h / 32 - 3 /\ w' = w / 32 - 3)%nat as [Eh Ew]
        by (split; congruence).
      rewrite (score_defined_iff m Hm). split.
      * intros [E1 E2]. exists n, h, w. split; [exact Hx|]. lia.
      * intros [n0 [h0 [w0 [Hx0 [Hh0 Hw0]]]]].
        rewrite Hx in Hx0.
        assert (h = h0 /\ w = w0) as [<- <-] by (split; congruence).
        lia.
    + split; [intros [y Hy]; discriminate|].
      intros [n [h [w [Hx [Hh Hw]]]]]. rewrite Hx in Hs.
      rewrite Hok in Hs by lia. discriminate.
Qed.

Lemma discriminator_accepted_sizes_witness :
  exists d y,
    Discriminator.new 64 4 2 3 1 sample_params = Some d
    /\ fst (Discriminator.forward (Discriminator.train true d)
                                  (full [5; 3; 79; 64]%nat 0))
       = Some y.
Proof.
  destruct (proj1 (@discriminator_accepted_sizes
                     2 3 1 sample_params
                     (le_S 1 1 (le_n 1)) (le_S 1 2 (le_S 1 1 (le_n 1)))))
    as [d [Hd H]].
  destruct (proj2 (H true (full [5; 3; 79; 64]%nat 0))) as [y Hy].
  - exists 5%nat, 79%nat, 64%nat. split; [reflexivity|]. lia.
  - now exists d, y.
Defined.

(** ** The discriminator applied to the generator *)

Lemma generator_pipeline_4_shape tr im nz ngf nc ngpu th N :
  (1 <= nz)%nat -> (1 <= ngf)%nat -> (1 <= nc)%nat ->
  out_shape tr (Generator_pipeline (Generator.new im 4 nz ngf nc ngpu th))
            [N; nz; 1; 1]
  = Some (if (im =? 64)%Z then [N; nc; 64; 64] else [N; nc; 128; 128])%nat.
Proof.
  intros Hz Hf Hc.
  unfold Generator_pipeline. cbn [Generator.im_size Generator.new].
  destruct (im =? 64)%Z.
  - apply generator_main64_shape; assumption.
  - apply generator_main128_shape; assumption.
Qed.

(** With kernel size 4, a generator and a discriminator built with the
    same [im_size] and the same [nc] compose when the latent size, the
    two base widths and [nc] are at least 1: the image batch the
    generator makes of a latent batch [N x nz x 1 x 1] is accepted by
    the discriminator, which returns a tensor of shape [1], whatever the
    modes, such base widths and parameters of the two. *)
Theorem discriminator_accepts_generator_output :
  forall (im : Z) (nz ngf ndf nc : nat) (ngpu ngpu' : Z)
         (th th' : nat -> layer_params) (mg md : bool)
         (N : nat) (z : tensor),
    (1 <= nz)%nat -> (1 <= ngf)%nat -> (1 <= ndf)%nat -> (1 <= nc)%nat ->
    dims z = [N; nz; 1; 1]%nat ->
    exists d img y,
      Discriminator.new im 4 ndf nc ngpu' th' = Some d
      /\ fst (Generator.forward
                (Generator.train mg (Generator.new im 4 nz ngf nc ngpu th)) z)
         = Some img
      /\ fst (Discriminator.forward (Discriminator.train md d) img) = Some y
      /\ dims y = [1]%nat.
Proof.
  intros im nz ngf ndf nc ngpu ngpu' th th' mg md N z Pz Pf Pd Pc Hz.
  destruct (@discriminator_4_shapes im ndf nc ngpu' th' Pd Pc)
    as [d [Hd [Him [_ [_ [H64 H128]]]]]].
  destruct (@forward_some_dims mg
              (Generator_pipeline (Generator.new im 4 nz ngf nc ngpu th)) z
              (if (im =? 64)%Z then [N; nc; 64; 64] else [N; nc; 128; 128])%nat)
    as [img [Hi Hdi]].
  { rewrite Hz. apply generator_pipeline_4_shape; assumption. }
  assert (Hm : exists m,
             fst (forward md (Discriminator_pipeline d) img) = Some m
             /\ dims m = [N; 1; 1; 1]%nat).
  { apply forward_some_dims. rewrite Hdi.
    unfold Discriminator_pipeline. rewrite Him.
    destruct (im =? 64)%Z.
    - now rewrite H64 by lia.
    - now rewrite H128 by lia. }
  destruct Hm as [m [Hm Hdm]].
  destruct (score_of_single_map m Hdm) as [y [Hy [Hdy _]]].
  exists d, img, y. split; [exact Hd|].
  split; [rewrite Generator_forward_fst; exact Hi|].
  split; [|exact Hdy].
  rewrite Discriminator_forward_fst.
  change (Discriminator_pipeline (Discriminator.train md d))
    with (Discriminator_pipeline d).
  cbn [Discriminator.training Discriminator.train].
  now rewrite Hm.
Qed.

Lemma discriminator_accepts_generator_output_witness :
  exists d img y,
    Discriminator.new 128 4 2 3 1 sample_params = Some d
    /\ fst (Generator.forward
              (Generator.train true (Generator.new 128 4 5 2 3 1 sample_params))
              (full [4; 5; 1; 1]%nat 0))
       = Some img
    /\ fst (Discriminator.forward (Discriminator.train true d) img) = Some y
    /\ dims y = [1]%nat.
Proof.
  apply (@discriminator_accepts_generator_output
           128 5 2 2 3 1 1 sample_params sample_params true true 4
           (full [4; 5; 1; 1]%nat 0)); [lia | lia | lia | lia |].
  reflexivity.
Defined.

(** With kernel size 4 and a latent size, base widths and an image
    channel count of at least 1, a discriminator built for one of the
    two resolutions raises on the images of a generator built for the
    other. *)
Theorem discriminator_refuses_other_resolution :
  forall (im_g im_d : Z) (nz ngf ndf nc : nat) (ngpu ngpu' : Z)
         (th th' : nat -> layer_params) (mg md : bool)
         (N : nat) (z : tensor),
    (1 <= nz)%nat -> (1 <= ngf)%nat -> (1 <= ndf)%nat -> (1 <= nc)%nat ->
    dims z = [N; nz; 1; 1]%nat ->
    (im_g =? 64)%Z <> (im_d =? 64)%Z ->
    exists d img,
      Discriminator.new im_d 4 ndf nc ngpu' th' = Some d
      /\ fst (Generator.forward
                (Generator.train mg (Generator.new im_g 4 nz ngf nc ngpu th))
                z)
         = Some img
      /\ fst (Discriminator.forward (Discriminator.train md d) img) = None.
Proof.
  intros im_g im_d nz ngf ndf nc ngpu ngpu' th th' mg md N z
         Pz Pf Pd Pc Hz Hne.
  destruct (@discriminator_4_shapes im_d ndf nc ngpu' th' Pd Pc)
    as [d [Hd [Him [_ [Hinv [H64 _]]]]]].
  destruct (@forward_some_dims mg
              (Generator_pipeline (Generator.new im_g 4 nz ngf nc ngpu th)) z
              (if (im_g =? 64)%Z
               then [N; nc; 64; 64] else [N; nc; 128; 128])%nat)
    as [img [Hi Hdi]].
  { rewrite Hz. apply generator_pipeline_4_shape; assumption. }
  exists d, img. split; [exact Hd|].
  split; [rewrite Generator_forward_fst; exact Hi|].
  rewrite Discriminator_forward_fst.
  change (Discriminator_pipeline (Discriminator.train md d))
    with (Discriminator_pipeline d).
  cbn [Discriminator.training Discriminator.train].
  pose proof (forward_dims md (Discriminator_pipeline d) img) as Hs.
  rewrite Hdi in Hs. unfold Discriminator_pipeline in Hs |- *.
  rewrite Him in Hs |- *.
  destruct (im_g =? 64)%Z, (im_d =? 64)%Z; try (now destruct Hne).
  - destruct (fst (forward md (Discriminator.main128 d) img)) as [m|];
      [|reflexivity].
    cbn [option_map] in Hs. symmetry in Hs.
    destruct (Hinv md _ _ _ _ Hs) as [[Hh _] _]. lia.
  - rewrite H64 in Hs by lia.
    destruct (fst (forward md (Discriminator.main64 d) img)) as [m|] eqn:Em;
      [|reflexivity].
    cbn [option_map] in Hs.
    assert (Hm : dims m = [N; 1; 128 / 16 - 3; 128 / 16 - 3]%nat)
      by congruence.
    destruct (Discriminator.score (Some m)) as [y|] eqn:Ey; [|reflexivity].
    destruct (proj1 (score_defined_iff m Hm)) as [E _];
      [now exists y|].
    vm_compute in E. discriminate.
Qed.

Lemma discriminator_refuses_other_resolution_witness :
  exists d img,
    Discriminator.new 128 4 2 3 1 sample_params = Some d
    /\ fst (Generator.forward
              (Generator.train true (Generator.new 64 4 5 2 3 1 sample_params))
              (full [4; 5; 1; 1]%nat 0))
       = Some img
    /\ fst (Discriminator.forward (Discriminator.train true d) img) = None.
Proof.
  apply (@discriminator_refuses_other_resolution
           64 128 5 2 2 3 1 1 sample_params sample_params true true 4
           (full [4; 5; 1; 1]%nat 0)); [lia | lia | lia | lia | |].
  - reflexivity.
  - vm_compute. discriminate.
Defined.

(** ** The batch counters *)

Lemma run_layers_counts ms :
  Forall (fun m => forall x y,
            fst (forward true m x) = Some y ->
            counters (snd (forward true m x)) = map S (counters m)) ms ->
  forall x y,
    fst (run_layers (forward true) ms x) = Some y ->
    flat_map counters (snd (run_layers (forward true) ms x))
    = map S (flat_map counters ms).
Proof.
  induction 1 as [|m ms Hm _ IH]; intros x y E; [reflexivity|].
  cbn [run_layers] in E |- *.
  specialize (Hm x).
  destruct (forward true m x) as [[x1|] m']; [|discriminate].
  specialize (Hm x1 eq_refl). cbn [snd] in Hm.
  specialize (IH x1 y).
  destruct (run_layers (forward true) ms x1) as [r ms''].
  cbn [fst snd flat_map] in *. now rewrite map_app, Hm, IH.
Qed.

(** In training mode a forward pass that does not raise advances the
    batch counter of every normalisation layer of the module by one. *)
Lemma forward_train_counts m :
  forall x y,
    fst (forward true m x) = Some y ->
    counters (snd (forward true m x)) = map S (counters m).
Proof.
  induction m using Module_nested_ind; intros x y E; cbn [forward] in E |- *;
    try reflexivity.
  - unfold batch_norm2d_forward in E |- *.
    destruct (dims x) as [|n [|c [|h [|wd [|? ?]]]]]; try discriminate.
    destruct (n * h * wd =? 1)%nat; [discriminate|].
    destruct (c =? nf)%nat; [reflexivity|discriminate].
  - specialize (IHm1 x).
    destruct (forward true m1 x) as [[x1|] c']; [|discriminate].
    specialize (IHm1 x1 eq_refl). cbn [snd] in IHm1.
    specialize (IHm3 x1).
    destruct (forward true m3 x1) as [[x2|] a']; [|discriminate].
    specialize (IHm3 x2 eq_refl). cbn [snd] in IHm3.
    destruct (truthy m2) eqn:T.
    + specialize (IHm2 x2 y).
      destruct (forward true m2 x2) as [r b']. cbn [fst snd counters] in *.
      now rewrite !map_app, IHm1, IHm2, IHm3.
    + cbn [snd counters]. rewrite !map_app, IHm1, IHm3.
      destruct m2; try discriminate.
      destruct layers; [reflexivity|discriminate].
  - pose proof (@run_layers_counts ms H x y) as R.
    destruct (run_layers (forward true) ms x) as [r ms'].
    cbn [fst snd counters] in *. now apply R.
Qed.

(** In training mode, when the pipeline a generator or a discriminator
    runs does not raise, the batch counter of every normalisation layer
    of that pipeline is advanced by one; for the discriminator this is
    so even when [.mean(0).view(1)] then raises. *)
Theorem training_pass_advances_counters :
  forall (g : Generator.t) (d : Discriminator.t) (x y : tensor),
    (Generator.training g = true ->
     fst (Generator.forward g x) = Some y ->
     counters (Generator_pipeline (snd (Generator.forward g x)))
     = map S (counters (Generator_pipeline g)))
    /\ (Discriminator.training d = true ->
        fst (forward true (Discriminator_pipeline d) x) = Some y ->
        counters (Discriminator_pipeline (snd (Discriminator.forward d x)))
        = map S (counters (Discriminator_pipeline d))).
Proof.
  intros g d x y. split.
  - intros Ht E. rewrite Generator_forward_fst, Ht in E.
    rewrite Generator_forward_snd, Ht. unfold Generator_pipeline in *.
    cbn [Generator.im_size Generator.main64 Generator.main128].
    destruct (Generator.im_size g =? 64)%Z;
      now apply forward_train_counts with (y := y).
  - intros Ht E.
    rewrite Discriminator_forward_snd, Ht. unfold Discriminator_pipeline in *.
    cbn [Discriminator.im_size Discriminator.main64 Discriminator.main128].
    destruct (Discriminator.im_size d =? 64)%Z;
      now apply forward_train_counts with (y := y).
Qed.

Lemma training_pass_advances_counters_witness :
  let g := Generator.new 128 4 1 1 3 1 sample_params in
  let x := full [2; 1; 1; 1]%nat 0 in
  exists y,
    fst (Generator.forward g x) = Some y
    /\ counters (Generator_pipeline (snd (Generator.forward g x)))
       = map S (counters (Generator_pipeline g)).
Proof.
  intros g x.
  destruct (fst (Generator.forward g x)) as [y|] eqn:E.
  - exists y. split; [reflexivity|].
    exact (proj1 (training_pass_advances_counters
                    g (Discriminator.mk 1 64 Tanh Tanh true) x y)
                 eq_refl E).
  - apply (f_equal (option_map dims)) in E. vm_compute in E. discriminate.
Defined.

Lemma discriminator_3_shape tr ndf nc ngpu th N :
  (1 <= ndf)%nat -> (1 <= nc)%nat ->
  exists d,
    Discriminator.new 64 3 ndf nc ngpu th = Some d
    /\ Discriminator.training d = true
    /\ Discriminator_pipeline d = Discriminator.main64 d
    /\ out_shape tr (Discriminator.main64 d) [N; nc; 64; 64]
       = Some [N; 1; 2; 2]%nat.
Proof.
  intros Hndf Hnc.
  eexists. split; [reflexivity|]. split; [reflexivity|].
  split; [reflexivity|].
  cbn [Discriminator.main64 out_shape run_shapes].
  shape_step. do 3 (shape_step; norm_step). shape_step. reflexivity.
Qed.

(** An exception does not undo the buffer updates.  With kernel size
    3, a base width and an image channel count of at least 1, a fresh
    discriminator built for resolution 64 raises on every image batch
    [N x nc x 64 x 64] (the last map is [N x 1 x 2 x 2] and [view(1)]
    refuses its batch mean), and the batch counters of its three
    normalisation layers have been advanced all the same. *)
Theorem failed_pass_keeps_buffer_updates :
  forall (ndf nc : nat) (ngpu : Z) (th : nat -> layer_params),
  (1 <= ndf)%nat -> (1 <= nc)%nat ->
  exists d,
    Discriminator.new 64 3 ndf nc ngpu th = Some d
    /\ forall (N : nat) (x : tensor),
         dims x = [N; nc; 64; 64]%nat ->
         fst (Discriminator.forward d x) = None
         /\ counters (Discriminator.main64 (snd (Discriminator.forward d x)))
            = map S (counters (Discriminator.main64 d))
         /\ length (counters (Discriminator.main64 d)) = 3%nat.
Proof.
  intros ndf nc ngpu th Hndf Hnc.
  destruct (@discriminator_3_shape true ndf nc ngpu th 0 Hndf Hnc)
    as [d [Hd [Ht [Hp _]]]].
  exists d. split; [exact Hd|]. intros N x Hx.
  destruct (@discriminator_3_shape true ndf nc ngpu th N Hndf Hnc)
    as [d' [Hd' [_ [_ Hs]]]].
  assert (d' = d) by congruence. subst d'.
  rewrite <- Hx in Hs.
  destruct (forward_some_dims _ _ _ Hs) as [m [Hm Hdm]].
  split; [|split].
  - rewrite Discriminator_forward_fst, Ht, Hp, Hm.
    unfold Discriminator.score, bind, view, mean0. rewrite Hdm. reflexivity.
  - rewrite Discriminator_forward_snd, Ht.
    unfold Discriminator_pipeline in Hp.
    destruct (Discriminator.im_size d =? 64)%Z eqn:E.
    + cbn [Discriminator.main64]. now apply forward_train_counts with (y := m).
    + exfalso. clear - Hd E. unfold Discriminator.new, conv_block, bind in Hd.
      cbn [Bool.eqb] in Hd.
      assert (Discriminator.im_size d = 64%Z) as I by
          (injection Hd as <-; reflexivity).
      rewrite I in E. discriminate.
  - clear - Hd. unfold Discriminator.new, conv_block, bind in Hd.
    cbn [Bool.eqb] in Hd. injection Hd as <-. reflexivity.
Qed.

Lemma failed_pass_keeps_buffer_updates_witness :
  exists d,
    Discriminator.new 64 3 1 3 1 sample_params = Some d
    /\ fst (Discriminator.forward d (full [2; 3; 64; 64]%nat 0)) = None
    /\ counters (Discriminator.main64
                   (snd (Discriminator.forward d (full [2; 3; 64; 64]%nat 0))))
       = map S (counters (Discriminator.main64 d)).
Proof.
  destruct (@failed_pass_keeps_buffer_updates
              1 3 1 sample_params (le_n 1) (le_S 1 2 (le_S 1 1 (le_n 1))))
    as [d [Hd H]].
  destruct (H 2%nat (full [2; 3; 64; 64]%nat 0) eq_refl) as [H1 [H2 _]].
  exists d. auto.
Defined.

(** ** Samples of a batch in evaluation mode *)

Lemma conv2d_forward_sample n cin cout k s p wt x x' :
  agree_on_sample n x x' ->
  results_agree_on_sample n (conv2d_forward cin cout k s p wt x)
                            (conv2d_forward cin cout k s p wt x').
Proof.
  intros [Hd Ha]. unfold conv2d_forward. rewrite <- Hd.
  destruct (dims x) as [|b [|c [|h [|w [|? ?]]]]]; try exact I.
  destruct (weightless cin cout k); [exact I|].
  destruct (c =? cin)%nat; [|exact I].
  destruct (conv_out h k s p); [|exact I].
  destruct (conv_out w k s p); [|exact I].
  split; [reflexivity|]. intros rest. cbn [data]. unfold conv2d_data.
  destruct rest as [|o [|i [|j [|? ?]]]]; try reflexivity.
  apply sum_upto_ext. intros c0.
  apply sum_upto_ext. intros a.
  apply sum_upto_ext. intros b0.
  unfold padded. now rewrite Ha.
Qed.

Lemma conv_transpose2d_forward_sample n cin cout k s p wt x x' :
  agree_on_sample n x x' ->
  results_agree_on_sample n (conv_transpose2d_forward cin cout k s p wt x)
                            (conv_transpose2d_forward cin cout k s p wt x').
Proof.
  intros [Hd Ha]. unfold conv_transpose2d_forward. rewrite <- Hd.
  destruct (dims x) as [|b [|c [|h [|w [|? ?]]]]]; try exact I.
  destruct (weightless cin cout k); [exact I|].
  destruct (c =? cin)%nat; [|exact I].
  destruct (deconv_out h k s p); [|exact I].
  destruct (deconv_out w k s p); [|exact I].
  split; [reflexivity|]. intros rest. cbn [data].
  unfold conv_transpose2d_data.
  destruct rest as [|o [|i [|j [|? ?]]]]; try reflexivity.
  apply sum_upto_ext. intros c0.
  apply sum_upto_ext. intros i0.
  apply sum_upto_ext. intros a.
  apply sum_upto_ext. intros j0.
  apply sum_upto_ext. intros b0.
  now rewrite Ha.
Qed.

Lemma batch_norm2d_eval_sample n nf g b bufs x x' :
  agree_on_sample n x x' ->
  results_agree_on_sample n
    (fst (batch_norm2d_forward false nf g b bufs x))
    (fst (batch_norm2d_forward false nf g b bufs x')).
Proof.
  intros [Hd Ha]. unfold batch_norm2d_forward. rewrite <- Hd.
  destruct (dims x) as [|b0 [|c [|h [|w [|? ?]]]]]; try exact I.
  destruct (c =? nf)%nat; [|exact I].
  split; [cbn [fst dims]; congruence|]. intros rest. cbn [fst data].
  unfold normalize.
  destruct rest as [|o [|i [|j [|? ?]]]]; try reflexivity.
  now rewrite Ha.
Qed.

Lemma pointwise_sample n f x x' :
  agree_on_sample n x x' ->
  results_agree_on_sample n (Some (pointwise f x)) (Some (pointwise f x')).
Proof.
  intros [Hd Ha]. split; [exact Hd|]. intros rest. cbn [pointwise data].
  now rewrite Ha.
Qed.

Lemma run_layers_eval_sample n ms :
  Forall (fun m => forall x x',
            agree_on_sample n x x' ->
            results_agree_on_sample n (fst (forward false m x))
                                      (fst (forward false m x'))) ms ->
  forall x x',
    agree_on_sample n x x' ->
    results_agree_on_sample n (fst (run_layers (forward false) ms x))
                              (fst (run_layers (forward false) ms x')).
Proof.
  induction 1 as [|m ms Hm _ IH]; intros x x' A; [exact A|].
  cbn [run_layers]. specialize (Hm x x' A).
  destruct (forward false m x) as [[y|] m1];
    destruct (forward false m x') as [[y'|] m1'];
    cbn [fst results_agree_on_sample] in Hm; try contradiction; [|exact I].
  specialize (IH y y' Hm).
  destruct (run_layers (forward false) ms y).
  destruct (run_layers (forward false) ms y'). exact IH.
Qed.

(** In evaluation mode every module treats the samples of a batch one
    by one: sample [n] of the result depends on sample [n] of the input
    only. *)
Lemma forward_eval_sample n m :
  forall x x',
    agree_on_sample n x x' ->
    results_agree_on_sample n (fst (forward false m x))
                              (fst (forward false m x')).
Proof.
  induction m using Module_nested_ind; intros x x' A; cbn [forward].
  - now apply conv2d_forward_sample.
  - now apply conv_transpose2d_forward_sample.
  - pose proof (batch_norm2d_eval_sample nf g b bufs A) as E.
    destruct (batch_norm2d_forward false nf g b bufs x).
    destruct (batch_norm2d_forward false nf g b bufs x'). exact E.
  - now apply pointwise_sample.
  - now apply pointwise_sample.
  - now apply pointwise_sample.
  - specialize (IHm1 x x' A).
    destruct (forward false m1 x) as [[x1|] c1];
      destruct (forward false m1 x') as [[x1'|] c1'];
      cbn [fst results_agree_on_sample] in IHm1; try contradiction;
      [|exact I].
    specialize (IHm3 x1 x1' IHm1).
    destruct (forward false m3 x1) as [[x2|] a1];
      destruct (forward false m3 x1') as [[x2'|] a1'];
      cbn [fst results_agree_on_sample] in IHm3; try contradiction;
      [|exact I].
    destruct (truthy m2); [|exact IHm3].
    specialize (IHm2 x2 x2' IHm3).
    destruct (forward false m2 x2). destruct (forward false m2 x2').
    exact IHm2.
  - pose proof (@run_layers_eval_sample n ms H x x' A) as E.
    destruct (run_layers (forward false) ms x).
    destruct (run_layers (forward false) ms x'). exact E.
Qed.

(** In evaluation mode the generator treats the samples of a latent
    batch one by one: two batches of the same shape that agree on
    sample [n] give results (or exceptions) that agree on sample
    [n]. *)
Theorem generator_eval_samples_independent :
  forall (g : Generator.t) (n : nat) (x x' : tensor),
    Generator.training g = false ->
    agree_on_sample n x x' ->
    results_agree_on_sample n (fst (Generator.forward g x))
                              (fst (Generator.forward g x')).
Proof.
  intros g n x x' Ht A. rewrite !Generator_forward_fst, Ht.
  now apply forward_eval_sample.
Qed.

Lemma generator_eval_samples_independent_witness :
  let g := Generator.eval (Generator.new 64 4 1 1 3 1 sample_params) in
  results_agree_on_sample 0
    (fst (Generator.forward g (full [2; 1; 1; 1]%nat 0)))
    (fst (Generator.forward g
            (Tensor.mk [2; 1; 1; 1]%nat
               (fun ix => match ix with
                          | 1%nat :: _ => 5%R
                          | _ => 0%R
                          end)))).
Proof.
  intros g. apply generator_eval_samples_independent.
  - reflexivity.
  - split; [reflexivity|]. intros rest. reflexivity.
Defined.

(** ** The shapes along the pipelines *)

Lemma map_dims_intermediate tr ms :
  forall x, map dims (intermediate tr ms x) = shape_trace tr ms (dims x).
Proof.
  induction ms as [|m ms IH]; intros x; [reflexivity|].
  cbn [intermediate shape_trace].
  rewrite <- forward_dims.
  destruct (fst (forward tr m x)) as [y|]; [|reflexivity].
  cbn [option_map map]. now rewrite IH.
Qed.

(** With kernel size 4 and a latent size, a base width and an image
    channel count of at least 1, the tensors along the generator
    pipelines have the shapes the comments of the source give: from
    [N x nz x 1 x 1] to [ngf*8 x 4 x 4], [ngf*4 x 8 x 8],
    [ngf*2 x 16 x 16], [ngf x 32 x 32] and [nc x 64 x 64] in the
    resolution-64 pipeline, and through [ngf*16 x 4 x 4] up to
    [nc x 128 x 128] in the resolution-128 pipeline; [Tanh] keeps the
    last shape. *)
Theorem generator_intermediate_shapes :
  forall (im : Z) (nz ngf nc : nat) (ngpu : Z) (th : nat -> layer_params)
         (mode : bool) (N : nat) (x : tensor),
    (1 <= nz)%nat -> (1 <= ngf)%nat -> (1 <= nc)%nat ->
    dims x = [N; nz; 1; 1]%nat ->
    let g := Generator.new im 4 nz ngf nc ngpu th in
    map dims (intermediate mode (stages (Generator.main64 g)) x)
    = [ [N; ngf * 8; 4; 4]; [N; ngf * 4; 8; 8]; [N; ngf * 2; 16; 16];
        [N; ngf; 32; 32]; [N; nc; 64; 64]; [N; nc; 64; 64] ]%nat
    /\ map dims (intermediate mode (stages (Generator.main128 g)) x)
       = [ [N; ngf * 16; 4; 4]; [N; ngf * 8; 8; 8]; [N; ngf * 4; 16; 16];
           [N; ngf * 2; 32; 32]; [N; ngf; 64; 64]; [N; nc; 128; 128];
           [N; nc; 128; 128] ]%nat.
Proof.
  intros im nz ngf nc ngpu th mode N x Hz Hf Hc Hx g. subst g.
  rewrite !map_dims_intermediate, Hx. unfold Generator.new.
  cbn [Generator.main64 Generator.main128 stages shape_trace]. split.
  - do 4 (shape_step; cbn [shape_trace]).
    rewrite out_shape_ConvTranspose2d. shape_step. reflexivity.
  - do 5 (shape_step; cbn [shape_trace]).
    rewrite out_shape_ConvTranspose2d. shape_step. reflexivity.
Qed.

Lemma generator_intermediate_shapes_witness :
  map dims
    (intermediate true
       (stages (Generator.main64 (Generator.new 64 4 2 1 3 1 sample_params)))
       (full [5; 2; 1; 1]%nat 0))
  = [ [5; 1 * 8; 4; 4]; [5; 1 * 4; 8; 8]; [5; 1 * 2; 16; 16];
      [5; 1; 32; 32]; [5; 3; 64; 64]; [5; 3; 64; 64] ]%nat.
Proof.
  exact (proj1 (@generator_intermediate_shapes
                  64 2 1 3 1 sample_params true 5
                  (full [5; 2; 1; 1]%nat 0)
                  (le_S 1 1 (le_n 1)) (le_n 1)
                  (le_S 1 2 (le_S 1 1 (le_n 1))) eq_refl)).
Defined.

(** With kernel size 4, a base width and an image channel count of at
    least 1, the tensors along the discriminator pipelines have the
    shapes the comments of the source give for the blocks: from
    [N x nc x 64 x 64] to [ndf x 32 x 32], [ndf*2 x 16 x 16],
    [ndf*4 x 8 x 8] and [ndf*8 x 4 x 4], and from [N x nc x 128 x 128]
    through [ndf x 64 x 64] down to [ndf*16 x 4 x 4].  Each block halves
    the resolution and, after the first, doubles the depth.  The final
    convolution leaves a map [1 x 1 x 1] per sample. *)
Theorem discriminator_intermediate_shapes :
  forall (im : Z) (ndf nc : nat) (ngpu : Z) (th : nat -> layer_params),
  (1 <= ndf)%nat -> (1 <= nc)%nat ->
  exists d,
    Discriminator.new im 4 ndf nc ngpu th = Some d
    /\ forall (mode : bool) (N : nat) (x x' : tensor),
         (dims x = [N; nc; 64; 64]%nat ->
          map dims (intermediate mode (stages (Discriminator.main64 d)) x)
          = [ [N; ndf; 32; 32]; [N; ndf * 2; 16; 16]; [N; ndf * 4; 8; 8];
              [N; ndf * 8; 4; 4]; [N; 1; 1; 1] ]%nat)
         /\ (dims x' = [N; nc; 128; 128]%nat ->
             map dims (intermediate mode (stages (Discriminator.main128 d)) x')
             = [ [N; ndf; 64; 64]; [N; ndf * 2; 32; 32];
                 [N; ndf * 4; 16; 16]; [N; ndf * 8; 8; 8];
                 [N; ndf * 16; 4; 4]; [N; 1; 1; 1] ]%nat).
Proof.
  intros im ndf nc ngpu th Hndf Hnc. eexists. split; [reflexivity|].
  intros mode N x x'.
  cbn [Discriminator.main64 Discriminator.main128 stages].
  split; intros Hx; rewrite map_dims_intermediate, Hx;
    cbn [shape_trace out_shape run_shapes].
  - shape_step. do 3 (shape_step; norm_step). shape_step. reflexivity.
  - shape_step. do 4 (shape_step; norm_step). shape_step. reflexivity.
Qed.

Lemma discriminator_intermediate_shapes_witness :
  exists d,
    Discriminator.new 64 4 2 3 1 sample_params = Some d
    /\ map dims
         (intermediate true (stages (Discriminator.main64 d))
                       (full [5; 3; 64; 64]%nat 0))
       = [ [5; 2; 32; 32]; [5; 2 * 2; 16; 16]; [5; 2 * 4; 8; 8];
           [5; 2 * 8; 4; 4]; [5; 1; 1; 1] ]%nat.
Proof.
  destruct (@discriminator_intermediate_shapes
              64 2 3 1 sample_params
              (le_S 1 1 (le_n 1)) (le_S 1 2 (le_S 1 1 (le_n 1))))
    as [d [Hd H]].
  exists d. split; [exact Hd|].
  exact (proj1 (H true 5%nat (full [5; 3; 64; 64]%nat 0)
                  (full [5; 3; 64; 64]%nat 0)) eq_refl).
Defined.

(** ** Buffers in training mode *)

(** In training mode the result of [forward] does not depend on the
    buffers of the normalisation layers: two generators, or two
    discriminators, that agree in everything but those buffers give the
    same result on every input. *)
Theorem training_result_ignores_buffers :
  forall (g1 g2 : Generator.t) (d1 d2 : Discriminator.t) (x : tensor),
    (Generator_same_but_buffers g1 g2 ->
     Generator.training g1 = true ->
     fst (Generator.forward g1 x) = fst (Generator.forward g2 x))
    /\ (Discriminator_same_but_buffers d1 d2 ->
        Discriminator.training d1 = true ->
        fst (Discriminator.forward d1 x) = fst (Discriminator.forward d2 x)).
Proof.
  intros g1 g2 d1 d2 x. split.
  - intros [_ [Hi [Ht [H64 H128]]]] T.
    rewrite !Generator_forward_fst. unfold Generator_pipeline.
    rewrite <- Ht, <- Hi, T.
    destruct (Generator.im_size g1 =? 64)%Z.
    + rewrite <- (forward_train_output fresh_buffers (Generator.main64 g1)),
              <- (forward_train_output fresh_buffers (Generator.main64 g2)).
      now rewrite H64.
    + rewrite <- (forward_train_output fresh_buffers (Generator.main128 g1)),
              <- (forward_train_output fresh_buffers (Generator.main128 g2)).
      now rewrite H128.
  - intros [_ [Hi [Ht [H64 H128]]]] T.
    rewrite !Discriminator_forward_fst. unfold Discriminator_pipeline.
    rewrite <- Ht, <- Hi, T. f_equal.
    destruct (Discriminator.im_size d1 =? 64)%Z.
    + rewrite
        <- (forward_train_output fresh_buffers (Discriminator.main64 d1)),
        <- (forward_train_output fresh_buffers (Discriminator.main64 d2)).
      now rewrite H64.
    + rewrite
        <- (forward_train_output fresh_buffers (Discriminator.main128 d1)),
        <- (forward_train_output fresh_buffers (Discriminator.main128 d2)).
      now rewrite H128.
Qed.

Lemma training_result_ignores_buffers_witness :
  let th' := fun _ : nat =>
               mk_params (fun _ _ _ _ => 1%R) (fun _ => 1%R) (fun _ => 0%R)
                         (mk_buffers (fun _ => 3%R) (fun _ => 2%R) 7) in
  let x := full [2; 1; 1; 1]%nat 0 in
  fst (Generator.forward (Generator.new 64 4 1 1 3 1 sample_params) x)
  = fst (Generator.forward (Generator.new 64 4 1 1 3 1 th') x).
Proof.
  intros th' x.
  refine (proj1 (training_result_ignores_buffers
                   (Generator.new 64 4 1 1 3 1 sample_params)
                   (Generator.new 64 4 1 1 3 1 th')
                   (Discriminator.mk 1 64 Tanh Tanh true)
                   (Discriminator.mk 1 64 Tanh Tanh true) x) _ _).
  - repeat split; reflexivity.
  - reflexivity.
Defined.
